(** * five-bells-condition: the base fulfillment contract

    A shallow embedding of [src/lib/fulfillment.js] (class [Fulfillment]) and of
    the collaborators it calls, followed by the properties of its URI and
    binary codecs.

    Conventions.
    - A JavaScript exception is a [Throw e]; a normal return is [Ok v].
    - A method of a fulfillment that may assign fields of [this] takes the
      fields and returns them again (explicit state passing).
    - A [Buffer] is a [list byte]; a JavaScript string is a [string], its
      characters standing for the code units; an integer [Number] that holds
      a type bit is an [N].
    - Only [src/lib/fulfillment.js] is among the sources. The modules it
      requires are modelled from the specification, each definition saying
      so; concrete fulfillment types are a parameter ([Variant]). *)

From Stdlib Require Import NArith ZArith List Strings.String Strings.Ascii Strings.Byte Lia.
From stdpp Require Import base option list strings gmap.

Local Open Scope N_scope.

(** ** Errors *)

(** The texts that the thrown errors carry. *)
Inductive message : Set :=
  | MustStartWithCf          (* 'Serialized fulfillment must start with cf:' *)
  | MustBeVersion1           (* 'Fulfillment must be version 1' *)
  | InvalidFulfillmentFormat (* 'Invalid fulfillment format' *)
  | ImplementedBySubclass    (* 'This method should be implemented by a subclass' *)
  | NotImplemented           (* 'Not implemented' *)
  | NoSubmoduleForTypeBit    (* registry lookup of an unregistered type bit *)
  | OutOfBounds              (* a read past the end of the buffer *)
  | NonCanonicalVarUInt      (* a varuint with more bytes than necessary *)
  | UndefinedValue.          (* a use of [undefined] where a value is needed *)

(** The error classes: the generic [Error], [errors/prefix-error] and
    [errors/parse-error]. *)
Inductive error : Set :=
  | Error (m : message)
  | PrefixError (m : message)
  | ParseError (m : message).

Inductive result (A : Type) : Type :=
  | Ok (a : A)
  | Throw (e : error).
Arguments Ok {A} a.
Arguments Throw {A} e.

(** [result] is a monad: [x ← r; k] runs [k] on the value of [r] and
    propagates what [r] throws. *)
#[export] Instance result_bind : MBind result := fun A B k r =>
  match r with
  | Ok a => k a
  | Throw e => Throw e
  end.

#[export] Instance result_ret : MRet result := fun A a => Ok a.

(** ** Bytes *)

(** The byte whose value is [n mod 256]. *)
Definition byte_of_N (n : N) : byte :=
  match Byte.of_N (n mod 256) with
  | Some b => b
  | None => x00
  end.

(** ** Variable-length unsigned integers *)

Module VarUInt.

(** Modelled from the spec: the [writeVarUInt] encoding of
    [src/lib/writer.js], which is not among the sources. Each byte supplies
    seven bits of magnitude and its high bit says that more bytes follow.
    The spec leaves the order of the groups open; the least significant
    group comes first here. *)
Fixpoint encode_loop (fuel : nat) (value : N) : list byte :=
  match fuel with
  | O => [byte_of_N (value mod 128)]
  | S fuel' =>
      if value <? 128 then [byte_of_N value]
      else byte_of_N (value mod 128 + 128) :: encode_loop fuel' (value / 128)
  end.

(** Modelled from the spec: the bytes [writeVarUInt] appends. The loop runs
    once per seven-bit group; the bit size of [value] always covers the
    number of groups. *)
Definition encode (value : N) : list byte :=
  encode_loop (N.to_nat (N.size value)) value.

(** Modelled from the spec: the [readVarUInt] decoding of
    [src/lib/reader.js], which is not among the sources. Decoding fails with
    a ParseError when the buffer ends before the terminating byte or when
    the encoding uses more bytes than the value needs. Returns the value and
    the number of bytes used. *)
Fixpoint decode_loop (bytes : list byte) (shift : N) (acc : N) (used : nat)
  : result (N * nat) :=
  match bytes with
  | [] => Throw (ParseError OutOfBounds)
  | b :: rest =>
      let v := Byte.to_N b in
      let acc' := acc + N.shiftl (N.land v 127) shift in
      if N.testbit v 7 then decode_loop rest (shift + 7) acc' (S used)
      else if (v =? 0) && negb (shift =? 0)
           then Throw (ParseError NonCanonicalVarUInt)
           else Ok (acc', S used)
  end.

(** Modelled from the spec: what [readVarUInt] reads at the start of
    [bytes]. *)
Definition decode (bytes : list byte) : result (N * nat) :=
  decode_loop bytes 0 0 0%nat.

(** Modelled from the spec: the number of bytes a Predictor counts for a
    varuint, computed from the magnitude without encoding. *)
Definition size (value : N) : nat :=
  if value =? 0 then 1%nat else S (N.to_nat (N.log2 value / 7)).

End VarUInt.

(** ** The write interface shared by Writer and Predictor *)

(** Modelled from the spec: the operations of the write interface
    ([src/lib/writer.js] and [src/lib/predictor.js] are not among the
    sources). *)
Class WriteInterface (W : Type) : Type := {
  writeUInt8 : N -> W -> W;
  writeUInt16 : N -> W -> W;
  writeUInt32 : N -> W -> W;
  writeVarUInt : N -> W -> W;
  writeOctetString : list byte -> W -> W;
  writeVarOctetString : list byte -> W -> W
}.

(** One call on a writer. A [writePayload] receives a writer and can only call
    these methods on it, none of which returns a value: what it does to the
    writer is the sequence of its calls. *)
Inductive WriteCall : Type :=
  | CallUInt8 (value : N)
  | CallUInt16 (value : N)
  | CallUInt32 (value : N)
  | CallVarUInt (value : N)
  | CallOctetString (bytes : list byte)
  | CallVarOctetString (bytes : list byte).

Definition perform {W : Type} `{WriteInterface W} (c : WriteCall) (w : W) : W :=
  match c with
  | CallUInt8 v => writeUInt8 v w
  | CallUInt16 v => writeUInt16 v w
  | CallUInt32 v => writeUInt32 v w
  | CallVarUInt v => writeVarUInt v w
  | CallOctetString b => writeOctetString b w
  | CallVarOctetString b => writeVarOctetString b w
  end.

(** Replays a sequence of calls, in order, on a writer. *)
Definition replay {W : Type} `{WriteInterface W} (calls : list WriteCall) (w : W) : W :=
  fold_left (fun w c => perform c w) calls w.

Module Writer.

(** Modelled from the spec: [src/lib/writer.js] is not among the sources.
    A Writer appends to an internal growable byte buffer. *)
Record t : Type := mk { buffer : list byte }.

(** Modelled from the spec: [new Writer()] has an empty buffer. *)
Definition new : t := mk [].

(** Modelled from the spec: every write appends to the buffer. *)
Definition write (bytes : list byte) (w : t) : t := mk (buffer w ++ bytes).

(** Modelled from the spec: the bytes of the fixed-width integers. The spec
    leaves their byte order and the treatment of a value beyond the width
    open; they are big-endian and reduced to their width here. *)
Definition uint8 (v : N) : list byte := [byte_of_N v].

(** Modelled from the spec: see [uint8]. *)
Definition uint16 (v : N) : list byte := [byte_of_N (v / 256); byte_of_N v].

(** Modelled from the spec: see [uint8]. *)
Definition uint32 (v : N) : list byte :=
  [byte_of_N (v / 16777216); byte_of_N (v / 65536); byte_of_N (v / 256); byte_of_N v].

(** Modelled from the spec: an octet string is length-prefixed raw bytes;
    the prefix is one byte here. *)
Definition octetString (b : list byte) : list byte :=
  byte_of_N (N.of_nat (length b)) :: b.

(** Modelled from the spec: a variable octet string is raw bytes prefixed
    by their length as a varuint. *)
Definition varOctetString (b : list byte) : list byte :=
  VarUInt.encode (N.of_nat (length b)) ++ b.

(** Modelled from the spec: [getBuffer()] returns the finished bytes. *)
Definition getBuffer (w : t) : list byte := buffer w.

End Writer.

(** Modelled from the spec: the write interface as a Writer implements
    it. *)
#[export] Instance Writer_interface : WriteInterface Writer.t := {
  writeUInt8 v := Writer.write (Writer.uint8 v);
  writeUInt16 v := Writer.write (Writer.uint16 v);
  writeUInt32 v := Writer.write (Writer.uint32 v);
  writeVarUInt v := Writer.write (VarUInt.encode v);
  writeOctetString b := Writer.write (Writer.octetString b);
  writeVarOctetString b := Writer.write (Writer.varOctetString b)
}.

Module Predictor.

(** Modelled from the spec: [src/lib/predictor.js] is not among the
    sources. A Predictor discards the data and only adds, to its counter,
    the number of bytes each operation would write. *)
Record t : Type := mk { size : nat }.

(** Modelled from the spec: [new Predictor()] has counted nothing. *)
Definition new : t := mk 0.

(** Modelled from the spec: adds a number of bytes to the counter. *)
Definition skip (bytes : nat) (p : t) : t := mk (size p + bytes).

(** Modelled from the spec: [getSize()] returns the accumulated count. *)
Definition getSize (p : t) : nat := size p.

End Predictor.

(** Modelled from the spec: the write interface as a Predictor implements
    it, each operation by the number of bytes it would write. *)
#[export] Instance Predictor_interface : WriteInterface Predictor.t := {
  writeUInt8 _ := Predictor.skip 1;
  writeUInt16 _ := Predictor.skip 2;
  writeUInt32 _ := Predictor.skip 4;
  writeVarUInt v := Predictor.skip (VarUInt.size v);
  writeOctetString b := Predictor.skip (1 + length b);
  writeVarOctetString b :=
    Predictor.skip (VarUInt.size (N.of_nat (length b)) + length b)
}.

Module Reader.

(** Modelled from the spec: [src/lib/reader.js] is not among the sources.
    A Reader consumes bytes from a fixed buffer with a cursor. *)
Record t : Type := mk { buffer : list byte; cursor : nat }.

(** Modelled from the spec: what [Reader.from] accepts, a buffer or a
    Reader. *)
Inductive source : Type :=
  | OfBuffer (b : list byte)
  | OfReader (r : t).

(** Modelled from the spec: [Reader.from] builds a Reader at the start of
    a buffer and returns a Reader as it is. *)
Definition from (s : source) : t :=
  match s with
  | OfBuffer b => mk b 0
  | OfReader r => r
  end.

(** Modelled from the spec: the bytes after the cursor, not yet
    consumed. *)
Definition rest (r : t) : list byte := drop (cursor r) (buffer r).

(** Modelled from the spec: a read advances the cursor and fails with a
    ParseError when too few bytes remain. *)
Definition readUInt8 (r : t) : result (N * t) :=
  match rest r with
  | b :: _ => Ok (Byte.to_N b, mk (buffer r) (S (cursor r)))
  | [] => Throw (ParseError OutOfBounds)
  end.

(** Modelled from the spec: [readVarUInt()] is the dual of
    [writeVarUInt]. *)
Definition readVarUInt (r : t) : result (N * t) :=
  '(v, used) ← VarUInt.decode (rest r);
  Ok (v, mk (buffer r) (cursor r + used)).

(** Modelled from the spec: reads [n] raw bytes. *)
Definition read (n : nat) (r : t) : result (list byte * t) :=
  if (n <=? length (rest r))%nat
  then Ok (take n (rest r), mk (buffer r) (cursor r + n))
  else Throw (ParseError OutOfBounds).

(** Modelled from the spec: the dual of [writeVarOctetString]. *)
Definition readVarOctetString (r : t) : result (list byte * t) :=
  '(len, r1) ← readVarUInt r;
  read (N.to_nat len) r1.

End Reader.

(** ** Strings: the JavaScript built-ins the code calls *)

Local Open Scope string_scope.

(** [String.prototype.split] with a one-character separator: the pieces
    between the separators, in order; a string without separator is its own
    single piece. *)
Fixpoint split (sep : ascii) (s : string) : list string :=
  match s with
  | EmptyString => [EmptyString]
  | String c s' =>
      if Ascii.eqb c sep then EmptyString :: split sep s'
      else match split sep s' with
           | piece :: pieces => String c piece :: pieces
           | [] => [String c EmptyString]
           end
  end.

Definition in_range (lo hi c : ascii) : bool :=
  (N_of_ascii lo <=? N_of_ascii c)%N && (N_of_ascii c <=? N_of_ascii hi)%N.

Definition is_not (sep : ascii) (c : ascii) : bool := negb (Ascii.eqb c sep).

(** The value of a hexadecimal digit, in either case. *)
Definition hex_digit_value (c : ascii) : option N :=
  if in_range "0" "9" c then Some (N_of_ascii c - 48)%N
  else if in_range "a" "f" c then Some (N_of_ascii c - 87)%N
  else if in_range "A" "F" c then Some (N_of_ascii c - 55)%N
  else None.

(** [parseInt(s, 16)] on the digits of [s]: the value of the longest prefix of
    hexadecimal digits, [None] (NaN) when that prefix is empty. The optional
    white space, sign and 0x prefix that parseInt also accepts are left out:
    FULFILLMENT_REGEX has excluded them where the code calls it. *)
Fixpoint parseInt16_loop (s : string) (acc : N) : N :=
  match s with
  | EmptyString => acc
  | String c s' =>
      match hex_digit_value c with
      | Some d => parseInt16_loop s' (16 * acc + d)%N
      | None => acc
      end
  end.

Definition parseInt16 (s : string) : option N :=
  match s with
  | EmptyString => None
  | String c _ =>
      match hex_digit_value c with
      | Some _ => Some (parseInt16_loop s 0%N)
      | None => None
      end
  end.

(** The lowercase digit of a value below sixteen. *)
Definition hex_digit (d : N) : ascii :=
  if (d <? 10)%N then ascii_of_N (48 + d) else ascii_of_N (87 + d).

Fixpoint toString16_loop (fuel : nat) (n : N) (acc : string) : string :=
  let acc' := String (hex_digit (n mod 16)) acc in
  match fuel with
  | O => acc'
  | S fuel' => if (n <? 16)%N then acc' else toString16_loop fuel' (n / 16) acc'
  end.

(** [Number.prototype.toString(16)] on a non-negative integer: its lowercase
    hexadecimal digits without padding. *)
Definition toString16 (n : N) : string :=
  toString16_loop (N.to_nat (N.size n)) n EmptyString.

(** ** Regular expressions *)

Module RegExp.

(** The fragment of JavaScript regular expressions that FULFILLMENT_REGEX
    uses; a pattern anchored by ^ and $ has to match the whole input. *)
Inductive t : Type :=
  | Never
  | Empty
  | Class (accepts : ascii -> bool)
  | Seq (r1 r2 : t)
  | Or (r1 r2 : t)
  | Star (r : t).

Definition char (c : ascii) : t := Class (Ascii.eqb c).

(** A literal string. *)
Fixpoint lit (s : string) : t :=
  match s with
  | EmptyString => Empty
  | String c s' => Seq (char c) (lit s')
  end.

(** [r+] and [r{0,2}]. *)
Definition plus (r : t) : t := Seq r (Star r).
Definition upto2 (r : t) : t := Or Empty (Seq r (Or Empty r)).

Fixpoint nullable (r : t) : bool :=
  match r with
  | Never => false
  | Empty => true
  | Class _ => false
  | Seq r1 r2 => nullable r1 && nullable r2
  | Or r1 r2 => nullable r1 || nullable r2
  | Star _ => true
  end.

(** What remains of [r] to be matched after the character [c]. *)
Fixpoint deriv (c : ascii) (r : t) : t :=
  match r with
  | Never => Never
  | Empty => Never
  | Class accepts => if accepts c then Empty else Never
  | Seq r1 r2 =>
      if nullable r1 then Or (Seq (deriv c r1) r2) (deriv c r2)
      else Seq (deriv c r1) r2
  | Or r1 r2 => Or (deriv c r1) (deriv c r2)
  | Star r1 => Seq (deriv c r1) (Star r1)
  end.

(** [regex.exec(s)] as a truth value, for an anchored [regex]. *)
Fixpoint exec (r : t) (s : string) : bool :=
  match s with
  | EmptyString => nullable r
  | String c s' => exec (deriv c r) s'
  end.

(** The strings a pattern denotes, which [exec] decides. *)
Inductive matches : t -> string -> Prop :=
  | matches_empty : matches Empty EmptyString
  | matches_class accepts c :
      accepts c = true -> matches (Class accepts) (String c EmptyString)
  | matches_seq r1 r2 s1 s2 :
      matches r1 s1 -> matches r2 s2 -> matches (Seq r1 r2) (s1 ++ s2)
  | matches_or_l r1 r2 s : matches r1 s -> matches (Or r1 r2) s
  | matches_or_r r1 r2 s : matches r2 s -> matches (Or r1 r2) s
  | matches_star_nil r : matches (Star r) EmptyString
  | matches_star_more r s1 s2 :
      matches r s1 -> matches (Star r) s2 -> matches (Star r) (s1 ++ s2).

End RegExp.

(** The character classes of FULFILLMENT_REGEX. *)
Definition class_1_9a_f (c : ascii) : bool :=
  in_range "1" "9" c || in_range "a" "f" c.
Definition class_0_9a_f (c : ascii) : bool :=
  in_range "0" "9" c || in_range "a" "f" c.
Definition class_base64url (c : ascii) : bool :=
  in_range "a" "z" c || in_range "A" "Z" c || in_range "0" "9" c
  || Ascii.eqb c "_" || Ascii.eqb c "-".

(** /^cf:1:[1-9a-f][0-9a-f]{0,2}:[a-zA-Z0-9_-]+$/ *)
Definition FULFILLMENT_REGEX : RegExp.t :=
  RegExp.Seq (RegExp.lit "cf:1:")
    (RegExp.Seq (RegExp.Class class_1_9a_f)
       (RegExp.Seq (RegExp.upto2 (RegExp.Class class_0_9a_f))
          (RegExp.Seq (RegExp.char ":")
             (RegExp.plus (RegExp.Class class_base64url))))).

(** The grammar in the words of the specification:
    cf:1:<typeBitHex>:<payloadBase64Url>, where typeBitHex is one to three
    lowercase hexadecimal digits of which the first is not 0, and
    payloadBase64Url is one or more characters of the URL-safe base64
    alphabet. *)
Definition forall_chars (p : ascii -> bool) (s : string) : bool :=
  forallb p (list_ascii_of_string s).

Definition is_typeBitHex (t : string) : bool :=
  match t with
  | EmptyString => false
  | String c t' =>
      class_1_9a_f c && (String.length t' <=? 2)%nat && forall_chars class_0_9a_f t'
  end.

Definition is_payloadBase64Url (p : string) : bool :=
  negb (String.eqb p EmptyString) && forall_chars class_base64url p.

Definition fulfillment_grammar (s : string) : Prop :=
  exists t p : string,
    s = "cf:1:" ++ t ++ ":" ++ p /\
    is_typeBitHex t = true /\ is_payloadBase64Url p = true.

(** ** URL-safe base64 *)

Module base64url.

(** Modelled from the spec: [src/util/base64url.js] is not among the
    sources. URL-safe base64 without padding; this is its alphabet. *)
Definition alphabet : string :=
  "ABCDEFGHIJKLMNOPQRSTUVWXYZabcdefghijklmnopqrstuvwxyz0123456789-_".

(** Modelled from the spec: the character of a six-bit value. *)
Definition to_char (sextet : N) : ascii :=
  match String.get (N.to_nat sextet) alphabet with
  | Some c => c
  | None => "A"%char
  end.

(** Modelled from the spec: the six-bit value of a character of the
    alphabet. *)
Definition of_char (c : ascii) : option N :=
  if in_range "A" "Z" c then Some (N_of_ascii c - 65)%N
  else if in_range "a" "z" c then Some (N_of_ascii c - 71)%N
  else if in_range "0" "9" c then Some (N_of_ascii c + 4)%N
  else if Ascii.eqb c "-" then Some 62%N
  else if Ascii.eqb c "_" then Some 63%N
  else None.

(** Modelled from the spec: three bytes make four characters; a last group
    of one or two bytes makes two or three, without padding. *)
Fixpoint encode_bytes (bytes : list N) : list N :=
  match bytes with
  | a :: b :: c :: rest =>
      (a / 4) :: ((a mod 4) * 16 + b / 16) :: ((b mod 16) * 4 + c / 64) :: (c mod 64)
      :: encode_bytes rest
  | [a; b] => [a / 4; (a mod 4) * 16 + b / 16; (b mod 16) * 4]
  | [a] => [a / 4; (a mod 4) * 16]
  | [] => []
  end%N.

(** Modelled from the spec: [base64url.encode(buffer)]. *)
Definition encode (buffer : list byte) : string :=
  string_of_list_ascii (map to_char (encode_bytes (map Byte.to_N buffer))).

(** Modelled from the spec: four characters make three bytes; a last group
    of three or two makes two or one, and the bits left over are dropped. *)
Fixpoint decode_sextets (sextets : list N) : list N :=
  match sextets with
  | p :: q :: r :: s :: rest =>
      (p * 4 + q / 16) :: ((q mod 16) * 16 + r / 4) :: ((r mod 4) * 64 + s)
      :: decode_sextets rest
  | [p; q; r] => [p * 4 + q / 16; (q mod 16) * 16 + r / 4]
  | [p; q] => [p * 4 + q / 16]
  | _ => []
  end%N.

(** Modelled from the spec: [base64url.decode(text)]; the spec leaves the
    treatment of other characters open, they are skipped here. *)
Definition decode (text : string) : list byte :=
  map byte_of_N (decode_sextets (omap of_char (list_ascii_of_string text))).

End base64url.

(** ** Condition *)

Module Condition.

(** Modelled from the spec: [src/lib/condition.js] is not among the
    sources. A Condition holds a bitmask, a hash and a maximum fulfillment
    length, each undefined until its setter is called. *)
Record t : Type := mk {
  bitmask : option N;
  hash : option (list byte);
  maxFulfillmentLength : option nat
}.

(** Modelled from the spec: [new Condition()]. *)
Definition new : t := mk None None None.

(** Modelled from the spec: the setters, each assigning its field. *)
Definition setBitmask (b : N) (c : t) : t :=
  mk (Some b) (hash c) (maxFulfillmentLength c).

(** Modelled from the spec: see [setBitmask]. *)
Definition setHash (h : list byte) (c : t) : t :=
  mk (bitmask c) (Some h) (maxFulfillmentLength c).

(** Modelled from the spec: see [setBitmask]. *)
Definition setMaxFulfillmentLength (n : nat) (c : t) : t :=
  mk (bitmask c) (hash c) (Some n).

End Condition.

(** ** Fulfillment variants *)

(** What a concrete subclass of [Fulfillment] supplies: its static TYPE_BIT,
    its constructor and the methods the base class leaves to it. A method
    receives the fields of [this] and returns them, as it may assign them. *)
Record Variant : Type := {
  fields : Type;
  (** [new ConditionClass()] *)
  construct : fields;
  TYPE_BIT : N;
  (** [writePayload(writer)]: the calls made on [writer]. *)
  writePayload : fields -> list WriteCall * fields;
  (** [parsePayload(reader)]: fills the fields from the reader. *)
  parsePayload : Reader.t -> fields -> result (fields * Reader.t);
  (** [generateHash()] *)
  generateHash : fields -> result (list byte) * fields
}.

Module BitmaskRegistry.

(** Modelled from the spec: [src/lib/bitmask-registry.js] is not among the
    sources. The registry maps a type bit to the implementation registered
    for it; the lookup of an unregistered bit fails with a ParseError. *)
Definition getClassFromTypeBit (registry : gmap N Variant) (bitmask : N)
  : result Variant :=
  match registry !! bitmask with
  | Some ConditionClass => Ok ConditionClass
  | None => Throw (ParseError NoSubmoduleForTypeBit)
  end.

End BitmaskRegistry.

(** ** Fulfillment *)

Module Fulfillment.

(** An instance: its class ([this.constructor]) and its fields. *)
Record t : Type := mk { variant : Variant; this : fields variant }.

Section Static.

(** The process-wide registry the static methods consult. *)
Context (registry : gmap N Variant).

(** The argument is a string by its type, which is what the first guard
    of the method asks for. *)
Definition fromUri (serializedFulfillment : string) : result t :=
  let pieces := split ":" serializedFulfillment in
  if negb (bool_decide (pieces !! 0%nat = Some "cf")) then
    Throw (PrefixError MustStartWithCf)
  else if negb (bool_decide (pieces !! 1%nat = Some "1")) then
    Throw (PrefixError MustBeVersion1)
  else if negb (RegExp.exec FULFILLMENT_REGEX serializedFulfillment) then
    Throw (ParseError InvalidFulfillmentFormat)
  else
    let bitmask := pieces !! 2%nat ≫= parseInt16 in
    text ← from_option Ok (Throw (Error UndefinedValue)) (pieces !! 3%nat);
    let payload := Reader.from (Reader.OfBuffer (base64url.decode text)) in
    ConditionClass ←
      from_option (BitmaskRegistry.getClassFromTypeBit registry)
        (Throw (ParseError NoSubmoduleForTypeBit)) bitmask;
    let fulfillment := construct ConditionClass in
    '(fulfillment, _) ← parsePayload ConditionClass payload fulfillment;
    Ok (mk ConditionClass fulfillment).

(** Returns the fulfillment and the reader as the parse has left it. *)
Definition fromBinary (reader : Reader.source) : result (t * Reader.t) :=
  let reader := Reader.from reader in
  '(typeBit, reader) ← Reader.readVarUInt reader;
  ConditionClass ← BitmaskRegistry.getClassFromTypeBit registry typeBit;
  let condition := construct ConditionClass in
  '(condition, reader) ← parsePayload ConditionClass reader condition;
  Ok (mk ConditionClass condition, reader).

End Static.

Section Methods.

Context (V : Variant).

(** [this.constructor.TYPE_BIT] *)
Definition getTypeBit : N := TYPE_BIT V.

Definition getBitmask : N := TYPE_BIT V.

(** [this.writePayload(writer)] on any implementation of the write
    interface. *)
Definition callWritePayload {W : Type} `{WriteInterface W}
  (writer : W) (self : fields V) : W * fields V :=
  let '(calls, self) := writePayload V self in
  (replay calls writer, self).

Definition calculateMaxFulfillmentLength (self : fields V) : nat * fields V :=
  let predictor := Predictor.new in
  let '(predictor, self) := callWritePayload predictor self in
  (Predictor.getSize predictor, self).

Definition getCondition (self : fields V) : result Condition.t * fields V :=
  let condition := Condition.new in
  let condition := Condition.setBitmask getBitmask condition in
  match generateHash V self with
  | (Throw e, self) => (Throw e, self)
  | (Ok h, self) =>
      let condition := Condition.setHash h condition in
      let '(len, self) := calculateMaxFulfillmentLength self in
      (Ok (Condition.setMaxFulfillmentLength len condition), self)
  end.

Definition serializePayload (self : fields V) : list byte * fields V :=
  let writer := Writer.new in
  let '(writer, self) := callWritePayload writer self in
  (Writer.getBuffer writer, self).

Definition serializeUri (self : fields V) : string * fields V :=
  let '(payload, self) := serializePayload self in
  ("cf:1:" ++ toString16 getTypeBit ++ ":" ++ base64url.encode payload, self).

Definition serializeBinary (self : fields V) : list byte * fields V :=
  let writer := Writer.new in
  let writer := writeVarUInt getTypeBit writer in
  let '(writer, self) := callWritePayload writer self in
  (Writer.getBuffer writer, self).

(** The five operations that serialize or derive, as requests. *)
Inductive operation : Set :=
  | SerializeBinary
  | SerializePayload
  | SerializeUri
  | CalculateMaxFulfillmentLength
  | GetCondition.

(** The fields after one operation, and after a sequence of them. *)
Definition after (op : operation) (self : fields V) : fields V :=
  match op with
  | SerializeBinary => (serializeBinary self).2
  | SerializePayload => (serializePayload self).2
  | SerializeUri => (serializeUri self).2
  | CalculateMaxFulfillmentLength => (calculateMaxFulfillmentLength self).2
  | GetCondition => (getCondition self).2
  end.

Definition after_all (ops : list operation) (self : fields V) : fields V :=
  fold_left (fun self op => after op self) ops self.

End Methods.

(** The stubs of the base class, which a subclass overrides. *)
Definition generateHash_stub {F : Type} (self : F) : result (list byte) * F :=
  (Throw (Error ImplementedBySubclass), self).

Definition validate_stub {F : Type} (self : F) : result bool * F :=
  (Throw (Error NotImplemented), self).

End Fulfillment.

(** ** The contract of a variant *)

(** The variant's [writePayload] and [generateHash] assign no field. *)
Definition read_only (V : Variant) : Prop :=
  (forall self, (writePayload V self).2 = self) /\
  (forall self, (generateHash V self).2 = self).

(** The variant's [parsePayload], run on a fresh instance and a reader that
    stands at the payload some instance wrote, succeeds, and the instance it
    fills writes that payload again. *)
Definition parses_own_payload (V : Variant) : Prop :=
  forall (self : fields V) (reader : Reader.t),
    Reader.rest reader = (Fulfillment.serializePayload V self).1 ->
    exists self' reader',
      parsePayload V reader (construct V) = Ok (self', reader') /\
      (Fulfillment.serializePayload V self').1 = (Fulfillment.serializePayload V self).1.

(** The variant is the one the registry holds for its type bit. *)
Definition registered (registry : gmap N Variant) (V : Variant) : Prop :=
  registry !! TYPE_BIT V = Some V.

(** ** Two variants to run the code on *)

(** A hash-lock style variant: its only field is a preimage, written as a
    variable octet string. The digest algorithm belongs to the concrete
    families, outside this core; the preimage stands in for its digest. *)
Definition Preimage : Variant := {|
  fields := list byte;
  construct := [];
  TYPE_BIT := 1;
  writePayload := fun preimage => ([CallVarOctetString preimage], preimage);
  parsePayload := fun reader _ => Reader.readVarOctetString reader;
  generateHash := fun preimage => (Ok preimage, preimage)
|}.

(** A variant without fields: its payload is empty. *)
Definition Blank : Variant := {|
  fields := unit;
  construct := tt;
  TYPE_BIT := 2;
  writePayload := fun self => ([], self);
  parsePayload := fun reader self => Ok (self, reader);
  generateHash := fun self => (Ok [], self)
|}.

(** A variant like [Preimage] whose type bit, 0x1000, takes four
    hexadecimal digits. *)
Definition Wide : Variant := {|
  fields := list byte;
  construct := [];
  TYPE_BIT := 4096;
  writePayload := fun preimage => ([CallVarOctetString preimage], preimage);
  parsePayload := fun reader _ => Reader.readVarOctetString reader;
  generateHash := fun preimage => (Ok preimage, preimage)
|}.

Definition sample_registry : gmap N Variant :=
  <[1%N := Preimage]> (<[2%N := Blank]> (<[4096%N := Wide]> ∅)).

Definition hello : list byte := [x68; x65; x6c; x6c; x6f].

(** ** Further contracts, for the properties beyond the round trips *)

(** The variant's [parsePayload] reads its payload out of a longer stream:
    run on a reader that stands at a payload followed by other bytes, it
    succeeds, keeps the buffer and leaves the reader at those bytes. *)
Definition parses_payload_in_stream (V : Variant) : Prop :=
  forall (self : fields V) (reader : Reader.t) (tail : list byte),
    Reader.rest reader = ((Fulfillment.serializePayload V self).1 ++ tail)%list ->
    exists self' reader',
      parsePayload V reader (construct V) = Ok (self', reader') /\
      (Fulfillment.serializePayload V self').1 = (Fulfillment.serializePayload V self).1 /\
      Reader.buffer reader' = Reader.buffer reader /\
      Reader.rest reader' = tail.

(** Every class in the registry sits at its own TYPE_BIT. *)
Definition keyed_by_type_bit (registry : gmap N Variant) : Prop :=
  forall (bit : N) (V : Variant), registry !! bit = Some V -> TYPE_BIT V = bit.


(** ** Proof settings and tactics *)

Local Open Scope list_scope.
Local Open Scope N_scope.

(** String concatenation computes on its first argument. *)
#[local] Arguments String.append !s1 s2 : simpl nomatch.

(** [lia] also decides goals with division and remainder by constants. *)
Ltac Zify.zify_post_hook ::= Z.to_euclidean_division_equations.

(** Settles a closed fact about one character by running through all of
    them. *)
Ltac by_ascii_cases c :=
  destruct c as [[|] [|] [|] [|] [|] [|] [|] [|]]; vm_compute; try reflexivity;
  try discriminate; auto.

(** * Properties *)

(** ** Bytes and variable-length integers *)

Lemma to_N_byte_of_N (n : N) : n < 256 -> Byte.to_N (byte_of_N n) = n.
Proof.
  intros Hn. unfold byte_of_N. rewrite N.mod_small by exact Hn.
  destruct (Byte.of_N n) as [b|] eqn:E.
  - by apply Byte.to_of_N.
  - apply Byte.of_N_None_iff in E. lia.
Qed.

Lemma byte_of_N_to_N (b : byte) : byte_of_N (Byte.to_N b) = b.
Proof.
  unfold byte_of_N. pose proof (Byte.to_N_bounded b).
  rewrite N.mod_small by lia. by rewrite Byte.of_to_N.
Qed.

(** The low seven bits and the continuation bit of a byte, as arithmetic. *)
Lemma byte_low_bits (b : byte) :
  N.land (Byte.to_N b) 127 = Byte.to_N b mod 128.
Proof. change 127 with (N.ones 7). by rewrite N.land_ones. Qed.

Lemma byte_high_bit (b : byte) :
  N.testbit (Byte.to_N b) 7 = (128 <=? Byte.to_N b).
Proof. by destruct b. Qed.

Module VarUIntFacts.

Lemma decode_encode_loop (fuel : nat) :
  forall (v shift acc : N) (used : nat) (rest : list byte),
    v < 2 ^ N.of_nat fuel ->
    shift = 0 \/ v <> 0 ->
    VarUInt.decode_loop (VarUInt.encode_loop fuel v ++ rest) shift acc used
    = Ok (acc + N.shiftl v shift,
          (used + length (VarUInt.encode_loop fuel v))%nat).
Proof.
  induction fuel as [|fuel IH]; intros v shift acc used rest Hv Hcanon.
  - assert (v = 0) as -> by (simpl in Hv; lia).
    destruct Hcanon as [-> | ?]; [|done].
    cbn. f_equal. f_equal; lia.
  - cbn [VarUInt.encode_loop]. destruct (N.ltb_spec v 128) as [Hsmall | Hbig].
    + cbn [app VarUInt.decode_loop length].
      rewrite byte_high_bit, byte_low_bits, to_N_byte_of_N by lia.
      rewrite N.mod_small by lia.
      destruct (N.leb_spec 128 v) as [? | _]; [lia|].
      destruct (N.eqb_spec v 0) as [-> | Hnz]; cbn [andb].
      * destruct Hcanon as [-> | ?]; [|done]. cbn. f_equal. f_equal; lia.
      * f_equal. f_equal; lia.
    + cbn [app VarUInt.decode_loop length].
      pose proof (N.mod_upper_bound v 128 ltac:(lia)) as Hmod.
      rewrite byte_high_bit, byte_low_bits, to_N_byte_of_N by lia.
      destruct (N.leb_spec 128 (v mod 128 + 128)) as [_ | ?]; [|lia].
      assert (Hdiv : 1 <= v / 128)
        by (apply N.div_le_lower_bound; lia).
      rewrite IH.
      * f_equal. f_equal; [|lia].
        replace ((v mod 128 + 128) mod 128) with (v mod 128)
          by (rewrite <- N.Div0.add_mod_idemp_r, N.Div0.mod_same, N.add_0_r,
                N.Div0.mod_mod; done).
        rewrite !N.shiftl_mul_pow2, N.pow_add_r.
        rewrite (N.div_mod v 128) at 3 by lia.
        change (2 ^ 7) with 128. lia.
      * replace (N.of_nat (S fuel)) with (N.succ (N.of_nat fuel)) in Hv by lia.
        rewrite N.pow_succ_r' in Hv.
        apply N.Div0.div_lt_upper_bound.
        assert (0 < 2 ^ N.of_nat fuel) by (apply N.neq_0_lt_0, N.pow_nonzero; lia).
        lia.
      * right. lia.
Qed.

Lemma enough_fuel (v : N) : v < 2 ^ N.of_nat (N.to_nat (N.size v)).
Proof. rewrite N2Nat.id. apply N.size_gt. Qed.

(** Reading back what [encode] wrote gives the value and consumes exactly
    the bytes written. *)
Lemma varuint_decode_encode (v : N) (rest : list byte) :
  VarUInt.decode (VarUInt.encode v ++ rest)
  = Ok (v, length (VarUInt.encode v)).
Proof.
  unfold VarUInt.decode, VarUInt.encode.
  rewrite decode_encode_loop by (auto using enough_fuel).
  by rewrite N.shiftl_0_r.
Qed.

Lemma length_encode_loop (fuel : nat) :
  forall v : N,
    v < 2 ^ N.of_nat fuel ->
    length (VarUInt.encode_loop fuel v) = VarUInt.size v.
Proof.
  induction fuel as [|fuel IH]; intros v Hv.
  - assert (v = 0) as -> by (simpl in Hv; lia). done.
  - cbn [VarUInt.encode_loop]. unfold VarUInt.size.
    destruct (N.ltb_spec v 128) as [Hsmall | Hbig].
    + destruct (N.eqb_spec v 0) as [-> | Hnz]; [done|].
      assert (N.log2 v < 7) by (apply N.log2_lt_pow2; [lia | exact Hsmall]).
      rewrite N.div_small by done. done.
    + destruct (N.eqb_spec v 0) as [-> | Hnz]; [lia|].
      cbn [length]. rewrite IH.
      * unfold VarUInt.size.
        assert (Hdiv : 1 <= v / 128) by (apply N.div_le_lower_bound; lia).
        destruct (N.eqb_spec (v / 128) 0) as [? | _]; [lia|].
        f_equal.
        change 128 with (2 ^ 7). rewrite <- N.shiftr_div_pow2, N.log2_shiftr.
        assert (7 <= N.log2 v) by (apply N.log2_le_pow2; [lia | exact Hbig]).
        replace (N.log2 v) with ((N.log2 v - 7) + 1 * 7) at 2 by lia.
        rewrite N.div_add by lia. lia.
      * replace (N.of_nat (S fuel)) with (N.succ (N.of_nat fuel)) in Hv by lia.
        rewrite N.pow_succ_r' in Hv.
        apply N.Div0.div_lt_upper_bound.
        assert (0 < 2 ^ N.of_nat fuel) by (apply N.neq_0_lt_0, N.pow_nonzero; lia).
        lia.
Qed.

(** The size a Predictor adds for a varuint is the number of bytes a Writer
    appends for it. *)
Lemma length_encode (v : N) : length (VarUInt.encode v) = VarUInt.size v.
Proof. apply length_encode_loop, enough_fuel. Qed.

End VarUIntFacts.

(** ** Writer, Predictor and Reader *)

Lemma Writer_perform (c : WriteCall) (w : Writer.t) :
  Writer.getBuffer (perform c w)
  = Writer.getBuffer w ++ Writer.getBuffer (perform c Writer.new).
Proof. by destruct c. Qed.

(** A Writer only appends: replaying calls on a Writer that already holds
    bytes gives those bytes followed by what the calls write on a new one. *)
Lemma Writer_replay (calls : list WriteCall) :
  forall w : Writer.t,
    Writer.getBuffer (replay calls w)
    = Writer.getBuffer w ++ Writer.getBuffer (replay calls Writer.new).
Proof.
  unfold replay. induction calls as [|c calls IH]; intros w; cbn [fold_left].
  - cbn. by rewrite app_nil_r.
  - rewrite IH, (IH (perform c Writer.new)), Writer_perform.
    by rewrite <- app_assoc.
Qed.

Lemma Predictor_perform (c : WriteCall) (p : Predictor.t) :
  Predictor.getSize (perform c p)
  = (Predictor.getSize p + length (Writer.getBuffer (perform c Writer.new)))%nat.
Proof.
  destruct c; cbn; try done.
  - by rewrite VarUIntFacts.length_encode.
  - unfold Writer.varOctetString.
    by rewrite length_app, VarUIntFacts.length_encode.
Qed.

(** A Predictor counts what a Writer would have written. *)
Lemma Predictor_replay (calls : list WriteCall) :
  forall p : Predictor.t,
    Predictor.getSize (replay calls p)
    = (Predictor.getSize p + length (Writer.getBuffer (replay calls Writer.new)))%nat.
Proof.
  unfold replay. induction calls as [|c calls IH]; intros p; cbn [fold_left].
  - cbn. lia.
  - rewrite IH, Predictor_perform.
    change (fold_left _ calls ?w) with (replay calls w).
    rewrite (Writer_replay calls (perform c Writer.new)), length_app. lia.
Qed.

Lemma Reader_rest_advance (r : Reader.t) (front back : list byte) :
  Reader.rest r = front ++ back ->
  Reader.rest (Reader.mk (Reader.buffer r) (Reader.cursor r + length front)) = back.
Proof.
  unfold Reader.rest. cbn. intros H.
  by rewrite <- drop_drop, H, drop_app_length.
Qed.

(** [readVarUInt] is the dual of [writeVarUInt]. *)
Lemma Reader_readVarUInt_encode (r : Reader.t) (v : N) (back : list byte) :
  Reader.rest r = VarUInt.encode v ++ back ->
  Reader.readVarUInt r
  = Ok (v, Reader.mk (Reader.buffer r)
             (Reader.cursor r + length (VarUInt.encode v))).
Proof.
  intros H. unfold Reader.readVarUInt.
  by rewrite H, VarUIntFacts.varuint_decode_encode.
Qed.

(** [readVarOctetString] is the dual of [writeVarOctetString]. *)
Lemma Reader_readVarOctetString_encode (r : Reader.t) (b : list byte) :
  Reader.rest r = Writer.varOctetString b ->
  exists r', Reader.readVarOctetString r = Ok (b, r').
Proof.
  intros H. unfold Reader.readVarOctetString, Writer.varOctetString in *.
  rewrite (Reader_readVarUInt_encode r _ b H). cbn.
  unfold Reader.read.
  rewrite (Reader_rest_advance r _ b H), Nat2N.id.
  rewrite Nat.leb_refl, firstn_all. eauto.
Qed.

(** ** The two sample variants meet the contract *)

Lemma Preimage_read_only : read_only Preimage.
Proof. by split. Qed.

Lemma Preimage_parses_own_payload : parses_own_payload Preimage.
Proof.
  intros self reader H. cbn in H.
  destruct (Reader_readVarOctetString_encode reader self) as [r' Hr'].
  - by rewrite H.
  - exists self, r'. by split.
Qed.

Lemma Blank_read_only : read_only Blank.
Proof. by split. Qed.

Lemma Blank_parses_own_payload : parses_own_payload Blank.
Proof.
  intros self reader _. exists tt, reader. by destruct self.
Qed.

Lemma Wide_parses_own_payload : parses_own_payload Wide.
Proof. exact Preimage_parses_own_payload. Qed.

Lemma sample_registered_Wide : registered sample_registry Wide.
Proof. reflexivity. Qed.

Lemma sample_registered_Preimage : registered sample_registry Preimage.
Proof. reflexivity. Qed.

Lemma sample_registered_Blank : registered sample_registry Blank.
Proof. reflexivity. Qed.

(** ** The code on concrete inputs *)

Example encode_300 : VarUInt.encode 300 = [xac; x02].
Proof. reflexivity. Qed.

Example decode_padded_zero :
  VarUInt.decode [x80; x00] = Throw (ParseError NonCanonicalVarUInt).
Proof. reflexivity. Qed.

Example serializeUri_empty_preimage :
  (Fulfillment.serializeUri Preimage []).1 = "cf:1:1:AA".
Proof. reflexivity. Qed.

Example fromUri_empty_preimage :
  Fulfillment.fromUri sample_registry "cf:1:1:AA" = Ok (Fulfillment.mk Preimage []).
Proof. reflexivity. Qed.

Example serializeBinary_hello :
  (Fulfillment.serializeBinary Preimage hello).1
  = [x01; x05; x68; x65; x6c; x6c; x6f].
Proof. reflexivity. Qed.

Example fromBinary_unknown_type :
  Fulfillment.fromBinary sample_registry (Reader.OfBuffer [x08; x00])
  = Throw (ParseError NoSubmoduleForTypeBit).
Proof. reflexivity. Qed.

Example fromBinary_truncated :
  Fulfillment.fromBinary sample_registry (Reader.OfBuffer [x01; x05; x68; x65])
  = Throw (ParseError OutOfBounds).
Proof. reflexivity. Qed.

Example getCondition_without_generateHash :
  let Abstract := {| fields := unit; construct := tt; TYPE_BIT := 8;
                     writePayload := fun self => ([], self);
                     parsePayload := fun reader self => Ok (self, reader);
                     generateHash := Fulfillment.generateHash_stub |} in
  (Fulfillment.getCondition Abstract tt).1 = Throw (Error ImplementedBySubclass).
Proof. reflexivity. Qed.

(** ** Serialization and condition derivation *)

Lemma serializePayload_bytes (V : Variant) (self : fields V) :
  (Fulfillment.serializePayload V self).1
  = Writer.getBuffer (replay (writePayload V self).1 Writer.new).
Proof.
  unfold Fulfillment.serializePayload, Fulfillment.callWritePayload.
  by destruct (writePayload V self).
Qed.

Lemma serializeBinary_bytes (V : Variant) (self : fields V) :
  (Fulfillment.serializeBinary V self).1
  = VarUInt.encode (TYPE_BIT V) ++ (Fulfillment.serializePayload V self).1.
Proof.
  rewrite serializePayload_bytes.
  unfold Fulfillment.serializeBinary, Fulfillment.callWritePayload.
  destruct (writePayload V self) as [calls self']. cbn [fst].
  by rewrite Writer_replay.
Qed.

(** The default [calculateMaxFulfillmentLength] measures exactly the payload
    this instance serializes. *)
Lemma calculateMaxFulfillmentLength_measures (V : Variant) (self : fields V) :
  (Fulfillment.calculateMaxFulfillmentLength V self).1
  = length (Fulfillment.serializePayload V self).1.
Proof.
  rewrite serializePayload_bytes.
  unfold Fulfillment.calculateMaxFulfillmentLength, Fulfillment.callWritePayload.
  destruct (writePayload V self) as [calls self']. cbn [fst].
  by rewrite Predictor_replay.
Qed.

Lemma after_read_only (V : Variant) (op : Fulfillment.operation) (self : fields V) :
  read_only V -> Fulfillment.after V op self = self.
Proof.
  intros [Hwrite Hhash].
  assert (Hcalc : forall s, (Fulfillment.calculateMaxFulfillmentLength V s).2 = s).
  { intros s. specialize (Hwrite s).
    unfold Fulfillment.calculateMaxFulfillmentLength, Fulfillment.callWritePayload.
    by destruct (writePayload V s). }
  assert (Hpayload : forall s, (Fulfillment.serializePayload V s).2 = s).
  { intros s. specialize (Hwrite s).
    unfold Fulfillment.serializePayload, Fulfillment.callWritePayload.
    by destruct (writePayload V s). }
  destruct op; cbn [Fulfillment.after].
  - specialize (Hwrite self).
    unfold Fulfillment.serializeBinary, Fulfillment.callWritePayload.
    by destruct (writePayload V self).
  - apply Hpayload.
  - specialize (Hpayload self). unfold Fulfillment.serializeUri.
    by destruct (Fulfillment.serializePayload V self).
  - apply Hcalc.
  - specialize (Hhash self). unfold Fulfillment.getCondition.
    destruct (generateHash V self) as [[h|e] s]; cbn in Hhash; subst s; [|done].
    specialize (Hcalc self).
    by destruct (Fulfillment.calculateMaxFulfillmentLength V self).
Qed.

(** C8. [serializeBinary()] is the varuint encoding of [getTypeBit()]
    immediately followed by the bytes [writePayload] emits: it equals what
    [writeVarUInt(getTypeBit())] writes, concatenated with
    [serializePayload()], and [serializePayload()] holds only what
    [writePayload] wrote, without type bit. *)
Theorem serializeBinary_structure (V : Variant) (self : fields V) :
  (Fulfillment.serializeBinary V self).1
  = Writer.getBuffer (writeVarUInt (Fulfillment.getTypeBit V) Writer.new)
    ++ (Fulfillment.serializePayload V self).1
  /\ (Fulfillment.serializePayload V self).1
     = Writer.getBuffer (replay (writePayload V self).1 Writer.new).
Proof.
  split.
  - apply serializeBinary_bytes.
  - apply serializePayload_bytes.
Qed.

(** C3. Max-length soundness: for an instance whose [generateHash] returns
    a hash and assigns no field, the condition [getCondition()] derives
    carries a [maxFulfillmentLength] that the length of [serializePayload()]
    does not exceed; [calculateMaxFulfillmentLength] is the default one,
    which replays [writePayload] against a Predictor. *)
Theorem max_length_sound (V : Variant) (self : fields V) (h : list byte) :
  generateHash V self = (Ok h, self) ->
  exists (c : Condition.t) (n : nat),
    (Fulfillment.getCondition V self).1 = Ok c /\
    Condition.maxFulfillmentLength c = Some n /\
    (length (Fulfillment.serializePayload V self).1 <= n)%nat.
Proof.
  intros Hh. unfold Fulfillment.getCondition. rewrite Hh.
  pose proof (calculateMaxFulfillmentLength_measures V self) as Hlen.
  destruct (Fulfillment.calculateMaxFulfillmentLength V self) as [n s].
  cbn in Hlen. eexists _, n. split; [reflexivity|]. split; [reflexivity|]. lia.
Qed.

Lemma max_length_sound_witness :
  exists (c : Condition.t) (n : nat),
    (Fulfillment.getCondition Preimage hello).1 = Ok c /\
    Condition.maxFulfillmentLength c = Some n /\
    (length (Fulfillment.serializePayload Preimage hello).1 <= n)%nat.
Proof.
  apply (max_length_sound Preimage hello hello).
  reflexivity.
Defined.

(** C4. Condition derivation and determinism: where [generateHash()]
    returns a hash, [getCondition()] returns a Condition whose bitmask is
    [getBitmask()], whose hash is that hash and whose maxFulfillmentLength is
    what [calculateMaxFulfillmentLength()] then returns; when the variant's
    [writePayload] and [generateHash] assign no field, a second call on the
    fulfillment, as the first call left it, returns the same three values. *)
Theorem getCondition_derivation
  (V : Variant) (self self1 : fields V) (h : list byte) :
  generateHash V self = (Ok h, self1) ->
  (Fulfillment.getCondition V self).1
  = Ok {| Condition.bitmask := Some (Fulfillment.getBitmask V);
          Condition.hash := Some h;
          Condition.maxFulfillmentLength :=
            Some (Fulfillment.calculateMaxFulfillmentLength V self1).1 |}
  /\ (read_only V ->
      (Fulfillment.getCondition V (Fulfillment.getCondition V self).2).1
      = (Fulfillment.getCondition V self).1).
Proof.
  intros Hh. split.
  - unfold Fulfillment.getCondition. rewrite Hh.
    by destruct (Fulfillment.calculateMaxFulfillmentLength V self1).
  - intros Hro.
    change (Fulfillment.getCondition V self).2
      with (Fulfillment.after V Fulfillment.GetCondition self).
    by rewrite after_read_only.
Qed.

Lemma getCondition_derivation_witness :
  (Fulfillment.getCondition Preimage hello).1
  = Ok {| Condition.bitmask := Some 1;
          Condition.hash := Some hello;
          Condition.maxFulfillmentLength := Some 6%nat |}
  /\ (Fulfillment.getCondition Preimage (Fulfillment.getCondition Preimage hello).2).1
     = (Fulfillment.getCondition Preimage hello).1.
Proof.
  destruct (getCondition_derivation Preimage hello hello hello eq_refl)
    as [Hfirst Hsecond].
  split.
  - exact Hfirst.
  - apply Hsecond. exact Preimage_read_only.
Defined.

(** C10. Serialization does not mutate the fulfillment: when the variant's
    [writePayload] and [generateHash] assign no field, the fields are the
    same after any sequence of [serializeBinary()], [serializePayload()],
    [serializeUri()], [calculateMaxFulfillmentLength()] and
    [getCondition()]. *)
Theorem serialization_preserves_fields
  (V : Variant) (ops : list Fulfillment.operation) (self : fields V) :
  read_only V -> Fulfillment.after_all V ops self = self.
Proof.
  intros Hro. unfold Fulfillment.after_all.
  induction ops as [|op ops IH]; cbn [fold_left]; [done|].
  by rewrite after_read_only.
Qed.

Lemma serialization_preserves_fields_witness :
  Fulfillment.after_all Preimage
    [Fulfillment.SerializeUri; Fulfillment.GetCondition;
     Fulfillment.SerializeBinary; Fulfillment.CalculateMaxFulfillmentLength;
     Fulfillment.SerializePayload; Fulfillment.GetCondition] hello
  = hello.
Proof.
  apply (serialization_preserves_fields Preimage).
  exact Preimage_read_only.
Defined.

(** C1. Binary round trip: for a registered variant whose [parsePayload]
    reads back what its [writePayload] writes, [fromBinary] of
    [serializeBinary()] succeeds, with an instance of the same variant whose
    [serializeBinary()] gives the same bytes. *)
Theorem binary_round_trip
  (registry : gmap N Variant) (V : Variant) (self : fields V) :
  registered registry V ->
  parses_own_payload V ->
  exists (self' : fields V) (reader' : Reader.t),
    Fulfillment.fromBinary registry
      (Reader.OfBuffer (Fulfillment.serializeBinary V self).1)
    = Ok (Fulfillment.mk V self', reader')
    /\ (Fulfillment.serializeBinary V self').1
       = (Fulfillment.serializeBinary V self).1.
Proof.
  intros Hreg Hparse.
  unfold Fulfillment.fromBinary. cbn [Reader.from].
  set (reader0 := Reader.mk (Fulfillment.serializeBinary V self).1 0).
  assert (Hrest : Reader.rest reader0
                  = VarUInt.encode (TYPE_BIT V)
                    ++ (Fulfillment.serializePayload V self).1)
    by apply serializeBinary_bytes.
  rewrite (Reader_readVarUInt_encode reader0 _ _ Hrest). cbn [mbind result_bind].
  unfold BitmaskRegistry.getClassFromTypeBit. rewrite Hreg.
  cbn [mbind result_bind].
  destruct (Hparse self _ (Reader_rest_advance reader0 _ _ Hrest))
    as (self' & reader' & Hp & Hbytes).
  rewrite Hp. cbn [mbind result_bind].
  exists self', reader'. split; [reflexivity|].
  by rewrite !serializeBinary_bytes, Hbytes.
Qed.

Lemma binary_round_trip_witness :
  exists (self' : fields Preimage) (reader' : Reader.t),
    Fulfillment.fromBinary sample_registry
      (Reader.OfBuffer (Fulfillment.serializeBinary Preimage hello).1)
    = Ok (Fulfillment.mk Preimage self', reader')
    /\ (Fulfillment.serializeBinary Preimage self').1
       = (Fulfillment.serializeBinary Preimage hello).1.
Proof.
  apply (binary_round_trip sample_registry Preimage hello).
  - exact sample_registered_Preimage.
  - exact Preimage_parses_own_payload.
Defined.

(** ** Regular expressions: [exec] decides [matches] *)

Module RegExpFacts.

Import RegExp.

Lemma app_empty_inv (s1 s2 : string) :
  (s1 ++ s2)%string = EmptyString -> s1 = EmptyString /\ s2 = EmptyString.
Proof. by destruct s1. Qed.

Lemma string_app_nil_r (s : string) : (s ++ EmptyString)%string = s.
Proof. induction s as [|c s IH]; cbn; [done | by rewrite IH]. Qed.

Lemma string_app_assoc (s1 s2 s3 : string) :
  ((s1 ++ s2) ++ s3)%string = (s1 ++ (s2 ++ s3))%string.
Proof. induction s1 as [|c s1 IH]; cbn; [done | by rewrite IH]. Qed.

Lemma matches_seq_inv (r1 r2 : t) (s : string) :
  matches (Seq r1 r2) s ->
  exists s1 s2, s = (s1 ++ s2)%string /\ matches r1 s1 /\ matches r2 s2.
Proof. inversion 1; subst. eauto. Qed.

Lemma matches_or_inv (r1 r2 : t) (s : string) :
  matches (Or r1 r2) s -> matches r1 s \/ matches r2 s.
Proof. inversion 1; subst; auto. Qed.

Lemma matches_class_inv (accepts : ascii -> bool) (s : string) :
  matches (Class accepts) s ->
  exists c, s = String c EmptyString /\ accepts c = true.
Proof. inversion 1; subst. eauto. Qed.

Lemma matches_empty_inv (s : string) : matches Empty s -> s = EmptyString.
Proof. by inversion 1. Qed.

Lemma nullable_matches (r : t) : nullable r = true <-> matches r EmptyString.
Proof.
  induction r as [| | accepts | r1 IH1 r2 IH2 | r1 IH1 r2 IH2 | r IH]; cbn.
  - split; [done | inversion 1].
  - split; [constructor | done].
  - split; [done | inversion 1].
  - rewrite andb_true_iff, IH1, IH2. split.
    + intros [H1 H2]. apply (matches_seq _ _ EmptyString EmptyString H1 H2).
    + intros (s1 & s2 & Heq & H1 & H2)%matches_seq_inv.
      symmetry in Heq. apply app_empty_inv in Heq as [-> ->]. done.
  - rewrite orb_true_iff, IH1, IH2. split.
    + intros [H | H]; [by apply matches_or_l | by apply matches_or_r].
    + apply matches_or_inv.
  - split; [constructor | done].
Qed.

(** A non-empty match of a star starts with a non-empty match of its
    body. *)
Lemma matches_star_cons (r : t) (c : ascii) (s : string) :
  matches (Star r) (String c s) ->
  exists s1 s2, s = (s1 ++ s2)%string /\
                matches r (String c s1) /\ matches (Star r) s2.
Proof.
  intros H. remember (Star r) as r' eqn:Er. remember (String c s) as w eqn:Ew.
  revert Er Ew.
  induction H as [| | | | | | r0 s1 s2 H1 _ H2 IH2]; try done.
  intros [= ->] Ew. destruct s1 as [|c1 s1]; cbn in Ew.
  - by apply IH2.
  - injection Ew as -> <-. eauto.
Qed.

Lemma deriv_matches (r : t) :
  forall (c : ascii) (s : string),
    matches (deriv c r) s <-> matches r (String c s).
Proof.
  induction r as [| | accepts | r1 IH1 r2 IH2 | r1 IH1 r2 IH2 | r IH];
    intros c s; cbn [deriv].
  - split; inversion 1.
  - split; inversion 1.
  - destruct (accepts c) eqn:E; split.
    + intros ->%matches_empty_inv. by constructor.
    + intros (c' & [= <- ->] & _)%matches_class_inv. constructor.
    + inversion 1.
    + intros (c' & [= <- ->] & Hc)%matches_class_inv. congruence.
  - assert (Hleft : forall s',
              matches (Seq (deriv c r1) r2) s' -> matches (Seq r1 r2) (String c s')).
    { intros s' (s1 & s2 & -> & H1 & H2)%matches_seq_inv.
      apply IH1 in H1.
      apply (matches_seq _ _ (String c s1) s2 H1 H2). }
    assert (Hsplit : matches (Seq r1 r2) (String c s) ->
              (exists s1 s2, s = (s1 ++ s2)%string /\
                             matches r1 (String c s1) /\ matches r2 s2)
              \/ (matches r1 EmptyString /\ matches r2 (String c s))).
    { intros (s1 & s2 & Heq & H1 & H2)%matches_seq_inv.
      destruct s1 as [|c1 s1]; cbn in Heq.
      - right. by subst.
      - injection Heq as -> ->. left. eauto. }
    destruct (nullable r1) eqn:En; split.
    + intros [H | H]%matches_or_inv; [by apply Hleft|].
      apply (matches_seq _ _ EmptyString).
      * by apply nullable_matches.
      * by apply IH2.
    + intros H. destruct (Hsplit H) as [(s1 & s2 & -> & H1 & H2) | [_ H2]].
      * apply matches_or_l, matches_seq; [by apply IH1 | done].
      * apply matches_or_r. by apply IH2.
    + apply Hleft.
    + intros H. destruct (Hsplit H) as [(s1 & s2 & -> & H1 & H2) | [H1 _]].
      * apply matches_seq; [by apply IH1 | done].
      * apply nullable_matches in H1. congruence.
  - split.
    + intros [H | H]%matches_or_inv.
      * apply matches_or_l. by apply IH1.
      * apply matches_or_r. by apply IH2.
    + intros [H | H]%matches_or_inv.
      * apply matches_or_l. by apply IH1.
      * apply matches_or_r. by apply IH2.
  - split.
    + intros (s1 & s2 & -> & H1 & H2)%matches_seq_inv.
      apply IH in H1.
      apply (matches_star_more _ (String c s1) s2 H1 H2).
    + intros H. apply matches_star_cons in H as (s1 & s2 & -> & H1 & H2).
      apply matches_seq; [by apply IH | done].
Qed.

Lemma exec_matches (s : string) :
  forall r : t, exec r s = true <-> matches r s.
Proof.
  induction s as [|c s IH]; intros r; cbn [exec].
  - apply nullable_matches.
  - rewrite IH. apply deriv_matches.
Qed.

(** What the building blocks of FULFILLMENT_REGEX denote. *)
Lemma matches_lit (l s : string) : matches (lit l) s <-> s = l.
Proof.
  revert s. induction l as [|c l IH]; intros s; cbn [lit].
  - split; [apply matches_empty_inv | intros ->; constructor].
  - split.
    + intros (s1 & s2 & -> & H1 & H2)%matches_seq_inv.
      apply matches_class_inv in H1 as (c' & -> & Hc).
      apply Ascii.eqb_eq in Hc as <-. apply IH in H2 as ->. done.
    + intros ->. apply (matches_seq _ _ (String c EmptyString) l).
      * constructor. apply Ascii.eqb_refl.
      * by apply IH.
Qed.

Lemma matches_star_class (accepts : ascii -> bool) (s : string) :
  matches (Star (Class accepts)) s <-> forall_chars accepts s = true.
Proof.
  unfold forall_chars. split.
  - intros H. remember (Star (Class accepts)) as r eqn:Er. revert Er.
    induction H as [| | | | | | r0 s1 s2 H1 _ H2 IH2]; try done.
    intros [= ->]. apply matches_class_inv in H1 as (c & -> & Hc).
    cbn. rewrite Hc. by apply IH2.
  - induction s as [|c s IH]; cbn; [constructor|].
    intros [Hc Hs]%andb_true_iff.
    apply (matches_star_more _ (String c EmptyString) s); [by constructor | auto].
Qed.

Lemma matches_upto2_class (accepts : ascii -> bool) (s : string) :
  matches (upto2 (Class accepts)) s <->
  (String.length s <= 2)%nat /\ forall_chars accepts s = true.
Proof.
  unfold upto2, forall_chars. split.
  - intros [->%matches_empty_inv | (s1 & s2 & -> & Ha & Hb)%matches_seq_inv]%matches_or_inv.
    + cbn. split; [lia | done].
    + apply matches_class_inv in Ha as (c & -> & Hc).
      apply matches_or_inv in Hb as [->%matches_empty_inv | Hb].
      * cbn. rewrite Hc. split; [lia | done].
      * apply matches_class_inv in Hb as (c' & -> & Hc').
        cbn. rewrite Hc, Hc'. split; [lia | done].
  - intros [Hlen Hall].
    destruct s as [|c [|c' [|c'' s]]]; cbn in Hlen, Hall; try lia.
    + apply matches_or_l. constructor.
    + apply andb_true_iff in Hall as [Hc _].
      apply matches_or_r.
      apply (matches_seq _ _ (String c EmptyString) EmptyString);
        [by constructor | apply matches_or_l; constructor].
    + apply andb_true_iff in Hall as [Hc [Hc' _]%andb_true_iff].
      apply matches_or_r.
      apply (matches_seq _ _ (String c EmptyString) (String c' EmptyString));
        [by constructor | apply matches_or_r; by constructor].
Qed.

Lemma matches_plus_class (accepts : ascii -> bool) (s : string) :
  matches (plus (Class accepts)) s <->
  s <> EmptyString /\ forall_chars accepts s = true.
Proof.
  unfold plus. split.
  - intros (s1 & s2 & -> & H1 & H2)%matches_seq_inv.
    apply matches_class_inv in H1 as (c & -> & Hc).
    apply matches_star_class in H2. unfold forall_chars in *.
    cbn. rewrite Hc. by split.
  - intros [Hne Hall]. destruct s as [|c s]; [done|].
    unfold forall_chars in Hall. cbn in Hall.
    apply andb_true_iff in Hall as [Hc Hs].
    apply (matches_seq _ _ (String c EmptyString) s); [by constructor|].
    by apply matches_star_class.
Qed.

End RegExpFacts.

(** ** Characters, pieces and the grammar *)

Lemma class_0_9a_f_no_colon (c : ascii) :
  class_0_9a_f c = true -> is_not ":" c = true.
Proof. by_ascii_cases c. Qed.

Lemma class_1_9a_f_hex (c : ascii) :
  class_1_9a_f c = true -> class_0_9a_f c = true.
Proof. by_ascii_cases c. Qed.

Lemma class_base64url_no_colon (c : ascii) :
  class_base64url c = true -> is_not ":" c = true.
Proof. by_ascii_cases c. Qed.

Lemma forall_chars_impl (p q : ascii -> bool) (s : string) :
  (forall c, p c = true -> q c = true) ->
  forall_chars p s = true -> forall_chars q s = true.
Proof.
  intros Hpq. unfold forall_chars.
  induction s as [|c s IH]; cbn; [done|].
  intros [Hc Hs]%andb_true_iff. rewrite (Hpq c Hc). by apply IH.
Qed.

Lemma forall_chars_app (p : ascii -> bool) (s1 s2 : string) :
  forall_chars p (s1 ++ s2)%string = forall_chars p s1 && forall_chars p s2.
Proof.
  unfold forall_chars. induction s1 as [|c s1 IH]; cbn; [done|].
  by rewrite IH, andb_assoc.
Qed.

Module SplitFacts.

Lemma split_not_nil (sep : ascii) (s : string) : split sep s <> [].
Proof.
  destruct s as [|c s]; cbn; [done|].
  destruct (Ascii.eqb c sep); [done|]. by destruct (split sep s).
Qed.

(** A string without separator is its own single piece. *)
Lemma split_no_sep (sep : ascii) (t : string) :
  forall_chars (is_not sep) t = true -> split sep t = [t].
Proof.
  unfold forall_chars, is_not. induction t as [|c t IH]; cbn; [done|].
  intros [Hc Ht]%andb_true_iff. apply negb_true_iff in Hc.
  by rewrite Hc, IH.
Qed.

(** The first piece ends at the first separator. *)
Lemma split_app (sep : ascii) (t s : string) :
  forall_chars (is_not sep) t = true ->
  split sep (t ++ String sep s)%string = t :: split sep s.
Proof.
  unfold forall_chars, is_not. induction t as [|c t IH]; cbn.
  - intros _. by rewrite Ascii.eqb_refl.
  - intros [Hc Ht]%andb_true_iff. apply negb_true_iff in Hc.
    by rewrite Hc, IH.
Qed.

Lemma split_inv (sep : ascii) (s : string) :
  forall (p : string) (ps : list string),
    split sep s = p :: ps ->
    (ps = [] /\ s = p)
    \/ (exists s', s = (p ++ String sep s')%string /\ split sep s' = ps).
Proof.
  induction s as [|c s IH]; intros p ps; cbn.
  - intros [= <- <-]. by left.
  - destruct (Ascii.eqb_spec c sep) as [-> | _].
    + intros [= <- <-]. right. by exists s.
    + destruct (split sep s) as [|q qs] eqn:E; [by apply split_not_nil in E|].
      intros [= <- <-].
      destruct (IH q qs eq_refl) as [[-> ->] | (s' & -> & Hs')].
      * by left.
      * right. by exists s'.
Qed.

Lemma prefix_app (p s : string) :
  String.prefix p s = true <-> exists rest, s = (p ++ rest)%string.
Proof.
  revert s. induction p as [|a p IH]; intros s.
  - split; [intros _; by exists s | intros _; by destruct s].
  - destruct s as [|b s]; [split; [done | by intros [? ?]]|].
    change (String.prefix (String a p) (String b s))
      with (if ascii_dec a b then String.prefix p s else false).
    destruct (ascii_dec a b) as [<- | Hne].
    + rewrite IH. split; intros [rest Hrest]; exists rest; cbn in *; congruence.
    + split; [done | intros [rest Hrest]; cbn in Hrest; congruence].
Qed.

(** The two prefix checks of [fromUri] pass exactly on cf:1 and on the
    strings that start with cf:1: *)
Lemma prefix_checks (s : string) :
  split ":" s !! 0%nat = Some "cf" /\ split ":" s !! 1%nat = Some "1"
  <-> s = "cf:1" \/ String.prefix "cf:1:" s = true.
Proof.
  split.
  - intros [H0 H1].
    destruct (split ":" s) as [|p0 ps] eqn:E; [done|].
    cbn in H0, H1. injection H0 as ->.
    apply split_inv in E as [[-> ->] | (s1 & -> & E)]; [done|].
    destruct ps as [|p1 ps']; [done|]. cbn in H1. injection H1 as ->.
    apply split_inv in E as [[-> ->] | (s2 & -> & _)].
    + by left.
    + right. apply prefix_app. by exists s2.
  - intros [-> | [rest ->]%prefix_app]; [done|].
    change ("cf:1:" ++ rest)%string
      with ("cf" ++ String ":" ("1" ++ String ":" rest))%string.
    rewrite !split_app by done. done.
Qed.

End SplitFacts.

(** FULFILLMENT_REGEX accepts exactly the grammar of the specification. *)
Lemma FULFILLMENT_REGEX_grammar (s : string) :
  RegExp.exec FULFILLMENT_REGEX s = true <-> fulfillment_grammar s.
Proof.
  rewrite RegExpFacts.exec_matches. unfold FULFILLMENT_REGEX, fulfillment_grammar.
  split.
  - intros (l & s1 & -> & Hl & H1)%RegExpFacts.matches_seq_inv.
    apply RegExpFacts.matches_lit in Hl as ->.
    apply RegExpFacts.matches_seq_inv in H1 as (h & s2 & -> & Hh & H2).
    apply RegExpFacts.matches_class_inv in Hh as (c & -> & Hc).
    apply RegExpFacts.matches_seq_inv in H2 as (u & s3 & -> & Hu & H3).
    apply RegExpFacts.matches_upto2_class in Hu as [Hlen Hu].
    apply RegExpFacts.matches_seq_inv in H3 as (colon & p & -> & Hcolon & Hp).
    apply RegExpFacts.matches_class_inv in Hcolon as (c' & -> & Hc').
    apply Ascii.eqb_eq in Hc' as <-.
    apply RegExpFacts.matches_plus_class in Hp as [Hne Hp].
    exists (String c u), p. split; [|split].
    + reflexivity.
    + cbn. rewrite Hc, Hu. cbn. by apply Nat.leb_le in Hlen as ->.
    + unfold is_payloadBase64Url. rewrite Hp.
      by destruct p.
  - intros (t & p & -> & Ht & Hp).
    destruct t as [|c u]; [done|]. cbn in Ht.
    apply andb_true_iff in Ht as [[Hc Hlen]%andb_true_iff Hu].
    apply Nat.leb_le in Hlen.
    apply andb_true_iff in Hp as [Hne Hp].
    apply (RegExp.matches_seq _ _ "cf:1:" _);
      [by apply RegExpFacts.matches_lit|].
    apply (RegExp.matches_seq _ _ (String c EmptyString) _); [by constructor|].
    apply RegExp.matches_seq; [by apply RegExpFacts.matches_upto2_class|].
    apply (RegExp.matches_seq _ _ ":" _);
      [constructor; apply Ascii.eqb_refl|].
    apply RegExpFacts.matches_plus_class. split; [|done].
    by destruct p.
Qed.

(** ** Hexadecimal rendering *)

(** A fact about the numbers below a bound, checked on each of them. *)
Lemma N_below_forall (k : nat) (P : N -> bool) :
  forallb P (map N.of_nat (seq 0 k)) = true ->
  forall d, d < N.of_nat k -> P d = true.
Proof.
  intros Hall d Hd. rewrite forallb_forall in Hall. apply Hall.
  apply in_map_iff. exists (N.to_nat d). split; [lia|].
  apply in_seq. lia.
Qed.

Module HexFacts.

Lemma hex_digit_spec (d : N) :
  d < 16 ->
  hex_digit_value (hex_digit d) = Some d /\ class_0_9a_f (hex_digit d) = true.
Proof.
  intros Hd.
  pose proof (N_below_forall 16
    (fun d => bool_decide (hex_digit_value (hex_digit d) = Some d)
              && class_0_9a_f (hex_digit d)) eq_refl d Hd) as H.
  apply andb_true_iff in H as [H1 H2]. by apply bool_decide_eq_true in H1.
Qed.

Lemma lower_hex_is_digit (c : ascii) :
  class_0_9a_f c = true -> exists d, hex_digit_value c = Some d.
Proof. destruct (hex_digit_value c) eqn:E; [eauto|]. revert E. by_ascii_cases c. Qed.

Lemma loop_small (fuel : nat) (n : N) (acc : string) :
  n < 16 -> toString16_loop fuel n acc = String (hex_digit (n mod 16)) acc.
Proof.
  intros Hn. destruct fuel; cbn [toString16_loop]; [done|].
  by destruct (N.ltb_spec n 16); [|lia].
Qed.

Lemma loop_fuel (n : N) :
  forall (fuel : nat) (acc : string),
    n < 2 ^ N.of_nat fuel ->
    toString16_loop fuel n acc = (toString16 n ++ acc)%string.
Proof.
  induction (N.lt_wf_0 n) as [n _ IH]. intros fuel acc Hfuel.
  unfold toString16.
  destruct (N.ltb_spec n 16) as [Hsmall | Hbig].
  - by rewrite !loop_small.
  - assert (Hstep : forall f, n < 2 ^ N.of_nat (S f) -> n / 16 < 2 ^ N.of_nat f).
    { intros f Hf.
      replace (N.of_nat (S f)) with (N.succ (N.of_nat f)) in Hf by lia.
      rewrite N.pow_succ_r' in Hf.
      assert (0 < 2 ^ N.of_nat f) by (apply N.neq_0_lt_0, N.pow_nonzero; lia).
      lia. }
    pose proof (VarUIntFacts.enough_fuel n) as Hsize.
    destruct fuel as [|f]; [cbn in Hfuel; lia|].
    destruct (N.to_nat (N.size n)) as [|f']; [cbn in Hsize; lia|].
    cbn [toString16_loop].
    destruct (N.ltb_spec n 16) as [? | _]; [lia|].
    assert (Hlt : n / 16 < n) by lia.
    rewrite (IH (n / 16) Hlt f _ (Hstep f Hfuel)).
    rewrite (IH (n / 16) Hlt f' _ (Hstep f' Hsize)).
    by rewrite RegExpFacts.string_app_assoc.
Qed.

(** The digits of [n]: the digits of [n / 16] followed by the last one. *)
Lemma toString16_small (n : N) :
  n < 16 -> toString16 n = String (hex_digit n) EmptyString.
Proof.
  intros Hn. unfold toString16. rewrite loop_small by done.
  by rewrite N.mod_small.
Qed.

Lemma toString16_big (n : N) :
  16 <= n ->
  toString16 n
  = (toString16 (n / 16) ++ String (hex_digit (n mod 16)) EmptyString)%string.
Proof.
  intros Hn. unfold toString16 at 1.
  pose proof (VarUIntFacts.enough_fuel n) as Hsize.
  destruct (N.to_nat (N.size n)) as [|f]; [cbn in Hsize; lia|].
  cbn [toString16_loop]. destruct (N.ltb_spec n 16) as [? | _]; [lia|].
  apply loop_fuel.
  replace (N.of_nat (S f)) with (N.succ (N.of_nat f)) in Hsize by lia.
  rewrite N.pow_succ_r' in Hsize.
  assert (0 < 2 ^ N.of_nat f) by (apply N.neq_0_lt_0, N.pow_nonzero; lia).
  lia.
Qed.

(** The rendering has lowercase hexadecimal digits only. *)
Lemma toString16_chars (n : N) : forall_chars class_0_9a_f (toString16 n) = true.
Proof.
  induction (N.lt_wf_0 n) as [n _ IH].
  destruct (N.ltb_spec n 16) as [Hsmall | Hbig].
  - rewrite toString16_small by done. unfold forall_chars. cbn.
    by rewrite (proj2 (hex_digit_spec n Hsmall)).
  - rewrite toString16_big, forall_chars_app, IH by (done || lia).
    unfold forall_chars. cbn.
    by rewrite (proj2 (hex_digit_spec (n mod 16) ltac:(lia))).
Qed.

Lemma parseInt16_loop_app (s t : string) :
  forall acc : N,
    forall_chars class_0_9a_f s = true ->
    parseInt16_loop (s ++ t) acc = parseInt16_loop t (parseInt16_loop s acc).
Proof.
  unfold forall_chars. induction s as [|c s IH]; intros acc; cbn; [done|].
  intros [Hc Hs]%andb_true_iff.
  destruct (lower_hex_is_digit c Hc) as [d ->]. by apply IH.
Qed.

Lemma parseInt16_loop_toString16 (n : N) :
  parseInt16_loop (toString16 n) 0 = n.
Proof.
  induction (N.lt_wf_0 n) as [n _ IH].
  destruct (N.ltb_spec n 16) as [Hsmall | Hbig].
  - rewrite toString16_small by done. cbn.
    rewrite (proj1 (hex_digit_spec n Hsmall)). lia.
  - rewrite toString16_big, parseInt16_loop_app, IH
      by (done || lia || apply toString16_chars).
    cbn. rewrite (proj1 (hex_digit_spec (n mod 16) ltac:(lia))). lia.
Qed.

(** [parseInt(n.toString(16), 16)] is [n]. *)
Lemma parseInt16_toString16 (n : N) : parseInt16 (toString16 n) = Some n.
Proof.
  pose proof (toString16_chars n) as Hchars.
  pose proof (parseInt16_loop_toString16 n) as Hloop.
  unfold parseInt16. destruct (toString16 n) as [|c s] eqn:E.
  - destruct (N.ltb_spec n 16).
    + by rewrite toString16_small in E.
    + rewrite toString16_big in E by done. by destruct (toString16 (n / 16)).
  - unfold forall_chars in Hchars. cbn in Hchars.
    apply andb_true_iff in Hchars as [Hc _].
    destruct (lower_hex_is_digit c Hc) as [d ->]. by rewrite Hloop.
Qed.

(** The rendering of a positive number does not start with 0. *)
Lemma toString16_head (n : N) :
  1 <= n ->
  exists c t, toString16 n = String c t /\ class_1_9a_f c = true.
Proof.
  induction (N.lt_wf_0 n) as [n _ IH]. intros Hn.
  destruct (N.ltb_spec n 16) as [Hsmall | Hbig].
  - rewrite toString16_small by done. eexists _, _. split; [done|].
    pose proof (N_below_forall 16
      (fun d => (d =? 0) || class_1_9a_f (hex_digit d)) eq_refl n Hsmall) as H.
    apply orb_true_iff in H as [H | H]; [|done]. apply N.eqb_eq in H. lia.
  - rewrite toString16_big by done.
    destruct (IH (n / 16)) as (c & t & -> & Hc); [lia | lia |].
    by eexists _, _.
Qed.

(** A type bit from 1 to 0xfff renders as the grammar's typeBitHex. *)
Lemma toString16_typeBitHex (n : N) :
  1 <= n <= 4095 -> is_typeBitHex (toString16 n) = true.
Proof.
  intros Hn.
  pose proof (N_below_forall 4096
    (fun n => (n =? 0) || is_typeBitHex (toString16 n))
    ltac:(vm_compute; reflexivity) n ltac:(lia)) as H.
  apply orb_true_iff in H as [H | H]; [|done].
  apply N.eqb_eq in H. lia.
Qed.

End HexFacts.

(** ** URL-safe base64 *)

Module Base64Facts.

Import base64url.

(** Induction over a list three elements at a time. *)
Lemma list_ind3 {A : Type} (P : list A -> Prop) :
  P [] -> (forall a, P [a]) -> (forall a b, P [a; b]) ->
  (forall a b c l, P l -> P (a :: b :: c :: l)) ->
  forall l, P l.
Proof.
  intros H0 H1 H2 H3 l.
  assert (H : P l /\ (forall a, P (a :: l)) /\ (forall a b, P (a :: b :: l))).
  { induction l as [|x l (IH0 & IH1 & IH2)]; [done|].
    split; [apply IH1|]. split; [intros a; apply IH2|].
    intros a b. by apply H3. }
  apply H.
Qed.

Lemma to_char_spec (i : N) :
  i < 64 ->
  of_char (to_char i) = Some i /\ class_base64url (to_char i) = true.
Proof.
  intros Hi.
  pose proof (N_below_forall 64
    (fun i => bool_decide (of_char (to_char i) = Some i)
              && class_base64url (to_char i)) eq_refl i Hi) as H.
  apply andb_true_iff in H as [H1 H2]. by apply bool_decide_eq_true in H1.
Qed.

Lemma of_to_chars (sextets : list N) :
  Forall (fun i => i < 64) sextets ->
  omap of_char (map to_char sextets) = sextets.
Proof.
  induction 1 as [|i l Hi _ IH]; cbn; [done|].
  by rewrite (proj1 (to_char_spec i Hi)), IH.
Qed.

Lemma encode_bytes_sextets (bytes : list N) :
  Forall (fun a => a < 256) bytes ->
  Forall (fun i => i < 64) (encode_bytes bytes).
Proof.
  induction bytes as [| a | a b | a b c l IH] using list_ind3; cbn [encode_bytes].
  - constructor.
  - intros [Ha _]%Forall_cons. repeat constructor; lia.
  - intros [Ha [Hb _]%Forall_cons]%Forall_cons. repeat constructor; lia.
  - intros [Ha [Hb [Hc Hl]%Forall_cons]%Forall_cons]%Forall_cons.
    repeat (constructor; [lia|]). by apply IH.
Qed.

Lemma decode_encode_bytes (bytes : list N) :
  Forall (fun a => a < 256) bytes ->
  decode_sextets (encode_bytes bytes) = bytes.
Proof.
  induction bytes as [| a | a b | a b c l IH] using list_ind3;
    cbn [encode_bytes decode_sextets].
  - done.
  - intros [Ha _]%Forall_cons.
    repeat (apply (f_equal2 cons); [lia|]). done.
  - intros [Ha [Hb _]%Forall_cons]%Forall_cons.
    repeat (apply (f_equal2 cons); [lia|]). done.
  - intros [Ha [Hb [Hc Hl]%Forall_cons]%Forall_cons]%Forall_cons.
    rewrite IH by done.
    repeat (apply (f_equal2 cons); [lia|]). done.
Qed.

Lemma bytes_bounded (buffer : list byte) :
  Forall (fun a => a < 256) (map Byte.to_N buffer).
Proof.
  apply Forall_map, Forall_true. intros b. cbn.
  pose proof (Byte.to_N_bounded b). lia.
Qed.

(** Decoding inverts encoding. *)
Lemma base64url_decode_encode (buffer : list byte) :
  decode (encode buffer) = buffer.
Proof.
  unfold decode, encode.
  rewrite list_ascii_of_string_of_list_ascii.
  rewrite of_to_chars by apply encode_bytes_sextets, bytes_bounded.
  rewrite decode_encode_bytes by apply bytes_bounded.
  rewrite map_map. rewrite <- (map_id buffer) at 2.
  apply map_ext. intros b. apply byte_of_N_to_N.
Qed.

(** The encoding uses the URL-safe alphabet only, without padding. *)
Lemma encode_chars (buffer : list byte) :
  forall_chars class_base64url (encode buffer) = true.
Proof.
  unfold forall_chars, encode. rewrite list_ascii_of_string_of_list_ascii.
  apply forallb_forall. intros c (i & <- & Hi)%in_map_iff.
  pose proof (encode_bytes_sextets _ (bytes_bounded buffer)) as Hall.
  rewrite List.Forall_forall in Hall.
  apply to_char_spec, Hall, Hi.
Qed.

(** Only the empty buffer encodes to the empty string. *)
Lemma encode_empty (buffer : list byte) :
  encode buffer = EmptyString <-> buffer = [].
Proof.
  split; [|by intros ->].
  destruct buffer as [|a [|b [|c l]]]; [done | done.. ].
Qed.

End Base64Facts.

(** ** Parsing a URI *)

Section FromUri.

Context (registry : gmap N Variant).

Lemma fromUri_wrong_scheme (s : string) :
  split ":" s !! 0%nat <> Some "cf" ->
  Fulfillment.fromUri registry s = Throw (PrefixError MustStartWithCf).
Proof.
  intros H. unfold Fulfillment.fromUri.
  by rewrite bool_decide_eq_false_2.
Qed.

Lemma fromUri_wrong_version (s : string) :
  split ":" s !! 0%nat = Some "cf" ->
  split ":" s !! 1%nat <> Some "1" ->
  Fulfillment.fromUri registry s = Throw (PrefixError MustBeVersion1).
Proof.
  intros H0 H1. unfold Fulfillment.fromUri.
  by rewrite bool_decide_eq_true_2, bool_decide_eq_false_2.
Qed.

Lemma fromUri_wrong_format (s : string) :
  split ":" s !! 0%nat = Some "cf" ->
  split ":" s !! 1%nat = Some "1" ->
  RegExp.exec FULFILLMENT_REGEX s = false ->
  Fulfillment.fromUri registry s = Throw (ParseError InvalidFulfillmentFormat).
Proof.
  intros H0 H1 Hre. unfold Fulfillment.fromUri.
  by rewrite !bool_decide_eq_true_2, Hre.
Qed.

(** Past the three checks, [fromUri] decodes the two last pieces and
    dispatches on the type bit. *)
Lemma fromUri_accepted (s t p : string) :
  split ":" s = ["cf"; "1"; t; p] ->
  RegExp.exec FULFILLMENT_REGEX s = true ->
  Fulfillment.fromUri registry s
  = (ConditionClass ←
       from_option (BitmaskRegistry.getClassFromTypeBit registry)
         (Throw (ParseError NoSubmoduleForTypeBit)) (parseInt16 t);
     '(fulfillment, _) ←
       parsePayload ConditionClass
         (Reader.mk (base64url.decode p) 0) (construct ConditionClass);
     Ok (Fulfillment.mk ConditionClass fulfillment)).
Proof.
  intros Hsplit Hre. unfold Fulfillment.fromUri.
  rewrite Hsplit, Hre. reflexivity.
Qed.

End FromUri.

Lemma typeBitHex_no_colon (t : string) :
  is_typeBitHex t = true -> forall_chars (is_not ":") t = true.
Proof.
  destruct t as [|c t]; [done|]. cbn.
  intros [[Hc _]%andb_true_iff Ht]%andb_true_iff.
  apply class_1_9a_f_hex, class_0_9a_f_no_colon in Hc.
  apply (forall_chars_impl _ _ _ class_0_9a_f_no_colon) in Ht.
  unfold forall_chars in *. cbn. by rewrite Hc, Ht.
Qed.

Lemma payloadBase64Url_no_colon (p : string) :
  is_payloadBase64Url p = true -> forall_chars (is_not ":") p = true.
Proof.
  intros [_ Hp]%andb_true_iff.
  by apply (forall_chars_impl _ _ _ class_base64url_no_colon).
Qed.

(** The pieces of a string of the grammar. *)
Lemma split_grammar (t p : string) :
  is_typeBitHex t = true -> is_payloadBase64Url p = true ->
  split ":" ("cf:1:" ++ t ++ ":" ++ p)%string = ["cf"; "1"; t; p].
Proof.
  intros Ht%typeBitHex_no_colon Hp%payloadBase64Url_no_colon.
  change ("cf:1:" ++ t ++ ":" ++ p)%string
    with ("cf" ++ String ":" ("1" ++ String ":" (t ++ String ":" p)))%string.
  rewrite !SplitFacts.split_app by done.
  by rewrite SplitFacts.split_no_sep.
Qed.

(** A string of the grammar has a fourth piece, and it is not empty. *)
Lemma grammar_fourth_piece (s : string) :
  fulfillment_grammar s -> split ":" s !! 3%nat <> Some EmptyString.
Proof.
  intros (t & p & -> & Ht & Hp). rewrite split_grammar by done. cbn.
  intros [= ->]. done.
Qed.

(** What [serializeUri] returns is in the grammar as soon as the type bit
    fits three digits and the payload is not empty. *)
Lemma serializeUri_grammar (V : Variant) (self : fields V) :
  1 <= TYPE_BIT V <= 4095 ->
  (Fulfillment.serializePayload V self).1 <> [] ->
  is_typeBitHex (toString16 (TYPE_BIT V)) = true
  /\ is_payloadBase64Url (base64url.encode (Fulfillment.serializePayload V self).1) = true.
Proof.
  intros Hbit Hpayload. split.
  - by apply HexFacts.toString16_typeBitHex.
  - unfold is_payloadBase64Url. rewrite Base64Facts.encode_chars.
    destruct (base64url.encode _) eqn:E; [|done].
    by apply Base64Facts.encode_empty in E.
Qed.

Lemma serializeUri_text (V : Variant) (self : fields V) :
  (Fulfillment.serializeUri V self).1
  = ("cf:1:" ++ toString16 (TYPE_BIT V) ++ ":"
     ++ base64url.encode (Fulfillment.serializePayload V self).1)%string.
Proof.
  unfold Fulfillment.serializeUri.
  by destruct (Fulfillment.serializePayload V self).
Qed.

(** ** The URI codec *)

(** C7. [serializeUri()] returns cf:1: followed by the hexadecimal rendering
    of [getTypeBit()], a colon and the URL-safe base64 encoding of
    [serializePayload()]. The rendering has lowercase digits only, reads back
    as the type bit and, unless it is the single digit 0, does not start with
    0; the encoding stays in the URL-safe alphabet, so it has no padding, and
    decodes to the payload. *)
Theorem serializeUri_format (V : Variant) (self : fields V) :
  let typeBitHex := toString16 (Fulfillment.getTypeBit V) in
  let payload := (Fulfillment.serializePayload V self).1 in
  (Fulfillment.serializeUri V self).1
  = ("cf:1:" ++ typeBitHex ++ ":" ++ base64url.encode payload)%string
  /\ forall_chars class_0_9a_f typeBitHex = true
  /\ parseInt16 typeBitHex = Some (Fulfillment.getTypeBit V)
  /\ (typeBitHex = "0"
      \/ exists c t, typeBitHex = String c t /\ class_1_9a_f c = true)
  /\ forall_chars class_base64url (base64url.encode payload) = true
  /\ base64url.decode (base64url.encode payload) = payload.
Proof.
  cbn zeta. unfold Fulfillment.getTypeBit. repeat split.
  - apply serializeUri_text.
  - apply HexFacts.toString16_chars.
  - apply HexFacts.parseInt16_toString16.
  - destruct (N.eqb_spec (TYPE_BIT V) 0) as [-> | Hnz]; [by left|].
    right. apply HexFacts.toString16_head. lia.
  - apply Base64Facts.encode_chars.
  - apply Base64Facts.base64url_decode_encode.
Qed.

(** C5, as the claim has it, fails: the string cf:1 does not start with
    cf:1: and [fromUri] rejects it with a ParseError, as both prefix checks
    look at the pieces between colons and pass. *)
Lemma prefix_rejection_counterexample :
  String.prefix "cf:1:" "cf:1" = false
  /\ Fulfillment.fromUri sample_registry "cf:1"
     = Throw (ParseError InvalidFulfillmentFormat).
Proof. split; reflexivity. Qed.

(** C5, amended. [fromUri] fails with a PrefixError when the first piece
    between colons is not cf (wrong scheme) and, with another message, when
    that piece is cf and the second one is not 1 (wrong version). Every string
    that does not start with cf:1: is rejected so, except cf:1 itself, which
    passes both checks and fails with a ParseError. The strings xx:1:1:AA and
    cf:2:1:AA raise the first and the second PrefixError. *)
Theorem prefix_rejection (registry : gmap N Variant) :
  (forall s,
      split ":" s !! 0%nat <> Some "cf" ->
      Fulfillment.fromUri registry s = Throw (PrefixError MustStartWithCf))
  /\ (forall s,
        split ":" s !! 0%nat = Some "cf" ->
        split ":" s !! 1%nat <> Some "1" ->
        Fulfillment.fromUri registry s = Throw (PrefixError MustBeVersion1))
  /\ (forall s,
        String.prefix "cf:1:" s = false -> s <> "cf:1" ->
        exists m, Fulfillment.fromUri registry s = Throw (PrefixError m))
  /\ Fulfillment.fromUri registry "cf:1" = Throw (ParseError InvalidFulfillmentFormat)
  /\ Fulfillment.fromUri registry "xx:1:1:AA" = Throw (PrefixError MustStartWithCf)
  /\ Fulfillment.fromUri registry "cf:2:1:AA" = Throw (PrefixError MustBeVersion1).
Proof.
  split; [apply fromUri_wrong_scheme|].
  split; [apply fromUri_wrong_version|].
  split; [|by repeat split].
  intros s Hprefix Hne.
  destruct (decide (split ":" s !! 0%nat = Some "cf")) as [H0 | H0].
  - destruct (decide (split ":" s !! 1%nat = Some "1")) as [H1 | H1].
    + destruct (proj1 (SplitFacts.prefix_checks s) (conj H0 H1)); congruence.
    + eexists. by apply fromUri_wrong_version.
  - eexists. by apply fromUri_wrong_scheme.
Qed.

Lemma prefix_rejection_witness :
  Fulfillment.fromUri sample_registry "cg:1:1:AA" = Throw (PrefixError MustStartWithCf)
  /\ Fulfillment.fromUri sample_registry "cf:10:1:AA" = Throw (PrefixError MustBeVersion1)
  /\ exists m, Fulfillment.fromUri sample_registry "cf" = Throw (PrefixError m).
Proof.
  destruct (prefix_rejection sample_registry) as (Hscheme & Hversion & Hprefix & _).
  split; [|split].
  - apply Hscheme. discriminate.
  - apply Hversion; [reflexivity | discriminate].
  - apply Hprefix; [reflexivity | discriminate].
Defined.

(** C6. Grammar rejection: a string that passes the scheme and version
    checks and is not of the grammar
    cf:1:<typeBitHex>:<payloadBase64Url> makes [fromUri] fail with a
    ParseError; cf:1:0:AA is such a string. *)
Theorem grammar_rejection (registry : gmap N Variant) :
  (forall s,
      split ":" s !! 0%nat = Some "cf" ->
      split ":" s !! 1%nat = Some "1" ->
      ~ fulfillment_grammar s ->
      Fulfillment.fromUri registry s = Throw (ParseError InvalidFulfillmentFormat))
  /\ Fulfillment.fromUri registry "cf:1:0:AA"
     = Throw (ParseError InvalidFulfillmentFormat).
Proof.
  split; [|reflexivity].
  intros s H0 H1 Hgrammar. apply fromUri_wrong_format; [done..|].
  apply not_true_is_false. by rewrite FULFILLMENT_REGEX_grammar.
Qed.

Lemma grammar_rejection_witness :
  Fulfillment.fromUri sample_registry "cf:1:1:A=="
  = Throw (ParseError InvalidFulfillmentFormat).
Proof.
  apply (proj1 (grammar_rejection sample_registry)).
  - reflexivity.
  - reflexivity.
  - rewrite <- FULFILLMENT_REGEX_grammar. discriminate.
Defined.

(** C9, as the claim has it, fails: the payload segment of xx:1:1: is empty
    and [fromUri] rejects the string with a PrefixError, as the prefix checks
    come before the grammar. *)
Lemma empty_payload_counterexample :
  split ":" "xx:1:1:" !! 3%nat = Some EmptyString
  /\ Fulfillment.fromUri sample_registry "xx:1:1:"
     = Throw (PrefixError MustStartWithCf).
Proof. split; reflexivity. Qed.

(** C9, amended. A string that passes the scheme and version checks and
    whose payload segment, the piece after the third colon, is empty makes
    [fromUri] fail with a ParseError, as cf:1:1: does; so does what
    [serializeUri()] returns for a fulfillment whose [serializePayload()] is
    empty. *)
Theorem empty_payload_rejection (registry : gmap N Variant) :
  (forall s,
      split ":" s !! 0%nat = Some "cf" ->
      split ":" s !! 1%nat = Some "1" ->
      split ":" s !! 3%nat = Some EmptyString ->
      Fulfillment.fromUri registry s = Throw (ParseError InvalidFulfillmentFormat))
  /\ Fulfillment.fromUri registry "cf:1:1:" = Throw (ParseError InvalidFulfillmentFormat)
  /\ (forall (V : Variant) (self : fields V),
        (Fulfillment.serializePayload V self).1 = [] ->
        Fulfillment.fromUri registry (Fulfillment.serializeUri V self).1
        = Throw (ParseError InvalidFulfillmentFormat)).
Proof.
  assert (Hgeneral : forall s,
    split ":" s !! 0%nat = Some "cf" ->
    split ":" s !! 1%nat = Some "1" ->
    split ":" s !! 3%nat = Some EmptyString ->
    Fulfillment.fromUri registry s = Throw (ParseError InvalidFulfillmentFormat)).
  { intros s H0 H1 H3. apply fromUri_wrong_format; [done..|].
    apply not_true_is_false. rewrite FULFILLMENT_REGEX_grammar.
    intros Hgrammar. by apply grammar_fourth_piece in Hgrammar. }
  split; [exact Hgeneral|]. split; [reflexivity|].
  intros V self Hempty.
  rewrite serializeUri_text, Hempty.
  change ("cf:1:" ++ toString16 (TYPE_BIT V) ++ ":" ++ base64url.encode [])%string
    with ("cf" ++ String ":" ("1" ++ String ":"
            (toString16 (TYPE_BIT V) ++ String ":" EmptyString)))%string.
  assert (Hhex : forall_chars (is_not ":") (toString16 (TYPE_BIT V)) = true)
    by apply (forall_chars_impl _ _ _ class_0_9a_f_no_colon),
             HexFacts.toString16_chars.
  apply Hgeneral; rewrite !SplitFacts.split_app by done; done.
Qed.

Lemma empty_payload_rejection_witness :
  Fulfillment.fromUri sample_registry "cf:1:2::"
  = Throw (ParseError InvalidFulfillmentFormat)
  /\ Fulfillment.fromUri sample_registry (Fulfillment.serializeUri Blank tt).1
     = Throw (ParseError InvalidFulfillmentFormat).
Proof.
  destruct (empty_payload_rejection sample_registry) as (Hstring & _ & Huri).
  split.
  - apply Hstring; reflexivity.
  - apply Huri. reflexivity.
Defined.

(** C2, as the claim has it, fails twice. The variant [Blank] is registered
    and parses what it writes, and its payload is empty: [fromUri] rejects
    what its [serializeUri()] returns. So does it for the variant [Wide],
    whose type bit takes four hexadecimal digits. *)
Lemma uri_round_trip_counterexample :
  (registered sample_registry Blank
   /\ parses_own_payload Blank
   /\ (Fulfillment.serializeUri Blank tt).1 = "cf:1:2:"
   /\ Fulfillment.fromUri sample_registry (Fulfillment.serializeUri Blank tt).1
      = Throw (ParseError InvalidFulfillmentFormat))
  /\ (registered sample_registry Wide
      /\ parses_own_payload Wide
      /\ (Fulfillment.serializeUri Wide hello).1 = "cf:1:1000:BWhlbGxv"
      /\ Fulfillment.fromUri sample_registry (Fulfillment.serializeUri Wide hello).1
         = Throw (ParseError InvalidFulfillmentFormat)).
Proof.
  split.
  - split; [exact sample_registered_Blank|].
    split; [exact Blank_parses_own_payload|].
    split; reflexivity.
  - split; [exact sample_registered_Wide|].
    split; [exact Wide_parses_own_payload|].
    split; reflexivity.
Qed.

(** C2, amended. URI round trip: for a registered variant whose
    [parsePayload] reads back what its [writePayload] writes, whose type bit
    is from 1 to 0xfff and whose payload is not empty, [fromUri] of
    [serializeUri()] succeeds, with an instance of the same variant whose
    [serializeUri()] gives the same string. *)
Theorem uri_round_trip
  (registry : gmap N Variant) (V : Variant) (self : fields V) :
  registered registry V ->
  parses_own_payload V ->
  1 <= TYPE_BIT V <= 4095 ->
  (Fulfillment.serializePayload V self).1 <> [] ->
  exists self' : fields V,
    Fulfillment.fromUri registry (Fulfillment.serializeUri V self).1
    = Ok (Fulfillment.mk V self')
    /\ (Fulfillment.serializeUri V self').1 = (Fulfillment.serializeUri V self).1.
Proof.
  intros Hreg Hparse Hbit Hpayload.
  destruct (serializeUri_grammar V self Hbit Hpayload) as [Ht Hp].
  rewrite (serializeUri_text V self).
  rewrite (fromUri_accepted registry _ _ _ (split_grammar _ _ Ht Hp)).
  - rewrite HexFacts.parseInt16_toString16. cbn [from_option].
    unfold BitmaskRegistry.getClassFromTypeBit. rewrite Hreg.
    cbn [mbind result_bind].
    rewrite Base64Facts.base64url_decode_encode.
    destruct (Hparse self (Reader.mk (Fulfillment.serializePayload V self).1 0))
      as (self' & reader' & Hparsed & Hbytes); [reflexivity|].
    rewrite Hparsed. cbn [mbind result_bind].
    exists self'. split; [reflexivity|].
    by rewrite serializeUri_text, Hbytes.
  - apply FULFILLMENT_REGEX_grammar. by eexists _, _.
Qed.

Lemma uri_round_trip_witness :
  exists self' : fields Preimage,
    Fulfillment.fromUri sample_registry (Fulfillment.serializeUri Preimage hello).1
    = Ok (Fulfillment.mk Preimage self')
    /\ (Fulfillment.serializeUri Preimage self').1
       = (Fulfillment.serializeUri Preimage hello).1.
Proof.
  apply (uri_round_trip sample_registry Preimage hello).
  - exact sample_registered_Preimage.
  - exact Preimage_parses_own_payload.
  - cbn. lia.
  - discriminate.
Defined.

(** * Further properties of the code *)

(** ** Hexadecimal type bits, read and written *)

Lemma lower_hex_digit (c : ascii) :
  class_0_9a_f c = true ->
  exists d, hex_digit_value c = Some d /\ d < 16 /\ hex_digit d = c.
Proof.
  destruct c as [[|] [|] [|] [|] [|] [|] [|] [|]]; intros H;
    vm_compute in H; try discriminate H; clear H;
    eexists; (split; [reflexivity | split; reflexivity]).
Qed.

Lemma leading_hex_digit (c : ascii) :
  class_1_9a_f c = true ->
  exists d, hex_digit_value c = Some d /\ 1 <= d < 16 /\ hex_digit d = c.
Proof.
  intros H. destruct (lower_hex_digit c (class_1_9a_f_hex c H)) as (d & Hd & Hlt & Hc).
  exists d. repeat split; try done.
  destruct (N.eqb_spec d 0) as [-> | ?]; [|lia].
  subst c. vm_compute in H. discriminate H.
Qed.

(** A typeBitHex of the grammar is the rendering of the number it reads
    as, and that number is from 1 to 0xfff. *)
Lemma typeBitHex_value (t : string) :
  is_typeBitHex t = true ->
  exists n, parseInt16 t = Some n /\ 1 <= n <= 4095 /\ toString16 n = t.
Proof.
  destruct t as [|c1 t']; [done|]. cbn [is_typeBitHex].
  intros [[H1 Hlen]%andb_true_iff Hrest]%andb_true_iff.
  apply Nat.leb_le in Hlen.
  destruct (leading_hex_digit c1 H1) as (d1 & E1 & B1 & <-).
  destruct t' as [|c2 [|c3 [|c4 t']]]; cbn in Hlen; [| | |lia].
  - exists d1. split; [|split; [lia|]].
    + unfold parseInt16. cbn [parseInt16_loop]. rewrite E1. f_equal; lia.
    + by rewrite HexFacts.toString16_small by lia.
  - unfold forall_chars in Hrest. cbn in Hrest.
    apply andb_true_iff in Hrest as [H2 _].
    destruct (lower_hex_digit c2 H2) as (d2 & E2 & B2 & <-).
    exists (16 * d1 + d2). split; [|split; [lia|]].
    + unfold parseInt16. cbn [parseInt16_loop]. rewrite E1, E2. f_equal; lia.
    + rewrite HexFacts.toString16_big by lia.
      replace ((16 * d1 + d2) / 16) with d1 by lia.
      replace ((16 * d1 + d2) mod 16) with d2 by lia.
      by rewrite HexFacts.toString16_small by lia.
  - unfold forall_chars in Hrest. cbn in Hrest.
    apply andb_true_iff in Hrest as [H2 [H3 _]%andb_true_iff].
    destruct (lower_hex_digit c2 H2) as (d2 & E2 & B2 & <-).
    destruct (lower_hex_digit c3 H3) as (d3 & E3 & B3 & <-).
    exists (16 * (16 * d1 + d2) + d3). split; [|split; [lia|]].
    + unfold parseInt16. cbn [parseInt16_loop]. rewrite E1, E2, E3. f_equal; lia.
    + rewrite HexFacts.toString16_big by lia.
      replace ((16 * (16 * d1 + d2) + d3) / 16) with (16 * d1 + d2) by lia.
      replace ((16 * (16 * d1 + d2) + d3) mod 16) with d3 by lia.
      rewrite HexFacts.toString16_big by lia.
      replace ((16 * d1 + d2) / 16) with d1 by lia.
      replace ((16 * d1 + d2) mod 16) with d2 by lia.
      by rewrite HexFacts.toString16_small by lia.
Qed.

Lemma toString16_inj (a b : N) : toString16 a = toString16 b -> a = b.
Proof.
  intros H. pose proof (HexFacts.parseInt16_toString16 a) as Ha.
  rewrite H, HexFacts.parseInt16_toString16 in Ha. congruence.
Qed.

Lemma base64url_encode_inj (a b : list byte) :
  base64url.encode a = base64url.encode b -> a = b.
Proof.
  intros H. rewrite <- (Base64Facts.base64url_decode_encode a), H.
  apply Base64Facts.base64url_decode_encode.
Qed.

(** The pieces of what [serializeUri] returns, whatever the type bit and
    the payload. *)
Lemma serializeUri_split (V : Variant) (self : fields V) :
  split ":" (Fulfillment.serializeUri V self).1
  = ["cf"; "1"; toString16 (TYPE_BIT V);
     base64url.encode (Fulfillment.serializePayload V self).1].
Proof.
  rewrite serializeUri_text.
  change ("cf:1:" ++ ?t ++ ":" ++ ?p)%string
    with ("cf" ++ String ":" ("1" ++ String ":" (t ++ String ":" p)))%string.
  assert (Hhex : forall_chars (is_not ":") (toString16 (TYPE_BIT V)) = true)
    by apply (forall_chars_impl _ _ _ class_0_9a_f_no_colon),
             HexFacts.toString16_chars.
  rewrite !SplitFacts.split_app by done.
  rewrite SplitFacts.split_no_sep; [done|].
  apply (forall_chars_impl _ _ _ class_base64url_no_colon),
    Base64Facts.encode_chars.
Qed.

(** The grammar determines the two variable pieces of a string. *)
Lemma grammar_pieces_unique (t1 p1 t2 p2 : string) :
  is_typeBitHex t1 = true -> is_payloadBase64Url p1 = true ->
  is_typeBitHex t2 = true -> is_payloadBase64Url p2 = true ->
  ("cf:1:" ++ t1 ++ ":" ++ p1)%string = ("cf:1:" ++ t2 ++ ":" ++ p2)%string ->
  t1 = t2 /\ p1 = p2.
Proof.
  intros Ht1 Hp1 Ht2 Hp2 Heq.
  pose proof (split_grammar t1 p1 Ht1 Hp1) as H1.
  rewrite Heq, split_grammar in H1 by done.
  by injection H1.
Qed.

(** ** Reading a payload out of a stream *)

Lemma Reader_readVarOctetString_stream
  (r : Reader.t) (b tail : list byte) :
  Reader.rest r = Writer.varOctetString b ++ tail ->
  exists r', Reader.readVarOctetString r = Ok (b, r')
             /\ Reader.buffer r' = Reader.buffer r
             /\ Reader.rest r' = tail.
Proof.
  intros H. unfold Writer.varOctetString in H. rewrite <- app_assoc in H.
  unfold Reader.readVarOctetString.
  rewrite (Reader_readVarUInt_encode r _ _ H). cbn [mbind result_bind].
  pose proof (Reader_rest_advance r _ _ H) as Hrest.
  set (r1 := Reader.mk _ _) in *.
  unfold Reader.read. rewrite Hrest, Nat2N.id, length_app.
  destruct (Nat.leb_spec (length b) (length b + length tail)) as [_ | ?]; [|lia].
  rewrite take_app_length. eexists. split; [reflexivity|]. split; [reflexivity|].
  apply (Reader_rest_advance r1 b tail Hrest).
Qed.

Lemma Preimage_parses_payload_in_stream : parses_payload_in_stream Preimage.
Proof.
  intros self reader tail H. cbn in H.
  destruct (Reader_readVarOctetString_stream reader self tail H)
    as (r' & Hr' & Hbuf & Hrest).
  by exists self, r'.
Qed.

Lemma sample_keyed_by_type_bit : keyed_by_type_bit sample_registry.
Proof.
  intros bit V H. unfold sample_registry in H.
  repeat (apply lookup_insert_Some in H as [[<- <-] | [_ H]]; [reflexivity|]).
  done.
Qed.

(** ** What [fromUri] accepts *)

(** On a string of the grammar, [fromUri] is the dispatch on the type bit
    followed by the parse of the decoded payload. *)
Lemma fromUri_inside_grammar
  (registry : gmap N Variant) (t p : string) (bit : N) :
  is_typeBitHex t = true -> is_payloadBase64Url p = true ->
  parseInt16 t = Some bit ->
  Fulfillment.fromUri registry ("cf:1:" ++ t ++ ":" ++ p)%string
  = (ConditionClass ← BitmaskRegistry.getClassFromTypeBit registry bit;
     '(fulfillment, _) ←
       parsePayload ConditionClass
         (Reader.mk (base64url.decode p) 0) (construct ConditionClass);
     Ok (Fulfillment.mk ConditionClass fulfillment)).
Proof.
  intros Ht Hp Hbit.
  rewrite (fromUri_accepted registry _ _ _ (split_grammar _ _ Ht Hp)).
  - by rewrite Hbit.
  - apply FULFILLMENT_REGEX_grammar. by eexists _, _.
Qed.

(** The grammar is decidable: FULFILLMENT_REGEX decides it. *)
Lemma classic_grammar (s : string) :
  fulfillment_grammar s \/ ~ fulfillment_grammar s.
Proof.
  rewrite <- FULFILLMENT_REGEX_grammar.
  destruct (RegExp.exec FULFILLMENT_REGEX s); [by left | by right].
Qed.

(** X1. [fromUri] rejects a string outside the grammar
    cf:1:<typeBitHex>:<payloadBase64Url> before it looks at the registry or
    runs any [parsePayload]: the error is one of the two PrefixErrors or the
    ParseError of the format, and it is the same whatever is registered. *)
Theorem fromUri_rejects_before_dispatch (s : string) :
  ~ fulfillment_grammar s ->
  exists e,
    (e = PrefixError MustStartWithCf \/ e = PrefixError MustBeVersion1
     \/ e = ParseError InvalidFulfillmentFormat)
    /\ forall registry, Fulfillment.fromUri registry s = Throw e.
Proof.
  intros Hgrammar.
  destruct (decide (split ":" s !! 0%nat = Some "cf")) as [H0 | H0].
  - destruct (decide (split ":" s !! 1%nat = Some "1")) as [H1 | H1].
    + eexists. split; [by right; right|]. intros registry.
      apply fromUri_wrong_format; [done..|].
      apply not_true_is_false. by rewrite FULFILLMENT_REGEX_grammar.
    + eexists. split; [by right; left|]. intros registry.
      by apply fromUri_wrong_version.
  - eexists. split; [by left|]. intros registry.
    by apply fromUri_wrong_scheme.
Qed.

Lemma fromUri_rejects_before_dispatch_witness :
  exists e,
    (e = PrefixError MustStartWithCf \/ e = PrefixError MustBeVersion1
     \/ e = ParseError InvalidFulfillmentFormat)
    /\ forall registry, Fulfillment.fromUri registry "cf:1:A:AA" = Throw e.
Proof.
  apply (fromUri_rejects_before_dispatch "cf:1:A:AA").
  rewrite <- FULFILLMENT_REGEX_grammar. discriminate.
Defined.

(** [fromUri] succeeds on strings of the grammar only. *)
Lemma fromUri_Ok_grammar
  (registry : gmap N Variant) (s : string) (f : Fulfillment.t) :
  Fulfillment.fromUri registry s = Ok f -> fulfillment_grammar s.
Proof.
  intros Hok. destruct (classic_grammar s) as [Hin | Hout]; [done|].
  exfalso.
  destruct (decide (split ":" s !! 0%nat = Some "cf")) as [H0 | H0].
  - destruct (decide (split ":" s !! 1%nat = Some "1")) as [H1 | H1].
    + rewrite fromUri_wrong_format in Hok; [done..|].
      apply not_true_is_false. by rewrite FULFILLMENT_REGEX_grammar.
    + by rewrite fromUri_wrong_version in Hok.
  - by rewrite fromUri_wrong_scheme in Hok.
Qed.

(** X2. What a successful [fromUri] tells: the string is of the grammar; its
    type-bit piece reads as a number from 1 to 0xfff; the class of the
    fulfillment is the one the registry holds for that number; the fields
    are what that class's [parsePayload] made of the decoded payload piece,
    read from its start. *)
Theorem fromUri_success
  (registry : gmap N Variant) (s : string) (f : Fulfillment.t) :
  Fulfillment.fromUri registry s = Ok f ->
  exists (t p : string) (bit : N) (reader' : Reader.t),
    s = ("cf:1:" ++ t ++ ":" ++ p)%string
    /\ is_typeBitHex t = true /\ is_payloadBase64Url p = true
    /\ parseInt16 t = Some bit /\ 1 <= bit <= 4095
    /\ registry !! bit = Some (Fulfillment.variant f)
    /\ parsePayload (Fulfillment.variant f)
         (Reader.mk (base64url.decode p) 0)
         (construct (Fulfillment.variant f))
       = Ok (Fulfillment.this f, reader').
Proof.
  intros Hok.
  destruct (fromUri_Ok_grammar registry s f Hok) as (t & p & -> & Ht & Hp).
  destruct (typeBitHex_value t Ht) as (bit & Hbit & Hrange & _).
  rewrite (fromUri_inside_grammar registry t p bit Ht Hp Hbit) in Hok.
  unfold BitmaskRegistry.getClassFromTypeBit in Hok.
  destruct (registry !! bit) as [V|] eqn:Hreg; [|done].
  cbn [mbind result_bind] in Hok.
  destruct (parsePayload V _ (construct V)) as [[x r']|e] eqn:Hparse; [|done].
  cbn [mbind result_bind] in Hok. injection Hok as <-.
  by exists t, p, bit, r'.
Qed.

Lemma fromUri_success_witness :
  exists (t p : string) (bit : N) (reader' : Reader.t),
    "cf:1:1:BWhlbGxv" = ("cf:1:" ++ t ++ ":" ++ p)%string
    /\ is_typeBitHex t = true /\ is_payloadBase64Url p = true
    /\ parseInt16 t = Some bit /\ 1 <= bit <= 4095
    /\ sample_registry !! bit = Some Preimage
    /\ parsePayload Preimage (Reader.mk (base64url.decode p) 0) (construct Preimage)
       = Ok (hello, reader').
Proof.
  apply (fromUri_success sample_registry "cf:1:1:BWhlbGxv"
           (Fulfillment.mk Preimage hello)).
  reflexivity.
Defined.

(** X3. On a string of the grammar, an error of the registry lookup for
    the type bit is the error of [fromUri], and so is, for a registered
    class, an error of its [parsePayload] on the decoded payload: no
    fulfillment is returned. *)
Theorem fromUri_propagates
  (registry : gmap N Variant) (t p : string) (bit : N) (e : error) :
  is_typeBitHex t = true -> is_payloadBase64Url p = true ->
  parseInt16 t = Some bit ->
  (BitmaskRegistry.getClassFromTypeBit registry bit = Throw e ->
   Fulfillment.fromUri registry ("cf:1:" ++ t ++ ":" ++ p)%string = Throw e)
  /\ (forall V : Variant,
        registry !! bit = Some V ->
        parsePayload V (Reader.mk (base64url.decode p) 0) (construct V) = Throw e ->
        Fulfillment.fromUri registry ("cf:1:" ++ t ++ ":" ++ p)%string = Throw e).
Proof.
  intros Ht Hp Hbit.
  rewrite (fromUri_inside_grammar registry t p bit Ht Hp Hbit). split.
  - by intros ->.
  - intros V Hreg Hparse. unfold BitmaskRegistry.getClassFromTypeBit.
    rewrite Hreg. cbn [mbind result_bind]. by rewrite Hparse.
Qed.

Lemma fromUri_propagates_witness :
  Fulfillment.fromUri sample_registry "cf:1:4:AA"
  = Throw (ParseError NoSubmoduleForTypeBit)
  /\ Fulfillment.fromUri sample_registry "cf:1:1:BQ"
     = Throw (ParseError OutOfBounds).
Proof.
  split.
  - apply (proj1 (fromUri_propagates sample_registry "4" "AA" 4 _
                    eq_refl eq_refl eq_refl)).
    reflexivity.
  - apply (proj2 (fromUri_propagates sample_registry "1" "BQ" 1 _
                    eq_refl eq_refl eq_refl) Preimage); reflexivity.
Defined.

(** X4. What [serializeUri] returns has exactly four pieces between colons:
    cf, 1, the rendering of the type bit and the encoded payload, so that it
    passes both prefix checks of [fromUri]. It matches FULFILLMENT_REGEX
    exactly when the type bit is from 1 to 0xfff and the payload is not
    empty. *)
Theorem serializeUri_shape (V : Variant) (self : fields V) :
  split ":" (Fulfillment.serializeUri V self).1
  = ["cf"; "1"; toString16 (Fulfillment.getTypeBit V);
     base64url.encode (Fulfillment.serializePayload V self).1]
  /\ (RegExp.exec FULFILLMENT_REGEX (Fulfillment.serializeUri V self).1 = true
      <-> 1 <= Fulfillment.getTypeBit V <= 4095
          /\ (Fulfillment.serializePayload V self).1 <> []).
Proof.
  unfold Fulfillment.getTypeBit. split; [apply serializeUri_split|].
  rewrite FULFILLMENT_REGEX_grammar. split.
  - intros (t & p & Heq & Ht & Hp).
    pose proof (serializeUri_split V self) as Hsplit.
    rewrite Heq, split_grammar in Hsplit by done.
    injection Hsplit as -> ->. split.
    + destruct (typeBitHex_value _ Ht) as (n & _ & Hrange & Hn).
      apply toString16_inj in Hn as <-. exact Hrange.
    + intros Hempty. rewrite Hempty in Hp. done.
  - intros [Hbit Hpayload].
    destruct (serializeUri_grammar V self Hbit Hpayload) as [Ht Hp].
    eexists _, _. split; [apply serializeUri_text|]. by split.
Qed.

Lemma serializeUri_shape_witness :
  RegExp.exec FULFILLMENT_REGEX (Fulfillment.serializeUri Preimage hello).1 = true.
Proof.
  apply (proj2 (serializeUri_shape Preimage hello)).
  split; [cbn; lia | discriminate].
Defined.

(** X5. [serializeUri] is injective in the type bit and the payload: two
    fulfillments with the same URI have the same type bit and the same
    serialized payload. *)
Theorem serializeUri_injective
  (V1 V2 : Variant) (self1 : fields V1) (self2 : fields V2) :
  (Fulfillment.serializeUri V1 self1).1 = (Fulfillment.serializeUri V2 self2).1 ->
  Fulfillment.getTypeBit V1 = Fulfillment.getTypeBit V2
  /\ (Fulfillment.serializePayload V1 self1).1
     = (Fulfillment.serializePayload V2 self2).1.
Proof.
  intros Heq. pose proof (serializeUri_split V1 self1) as H1.
  rewrite Heq, serializeUri_split in H1. injection H1 as Hbit Hpayload.
  split.
  - symmetry. by apply toString16_inj.
  - symmetry. by apply base64url_encode_inj.
Qed.

Lemma serializeUri_injective_witness :
  Fulfillment.getTypeBit Preimage = Fulfillment.getTypeBit Preimage
  /\ (Fulfillment.serializePayload Preimage hello).1
     = (Fulfillment.serializePayload Preimage hello).1.
Proof.
  apply (serializeUri_injective Preimage Preimage hello hello).
  reflexivity.
Defined.

(** X6. [serializeBinary] is injective in the type bit and the payload: two
    fulfillments with the same bytes have the same type bit and the same
    serialized payload. *)
Theorem serializeBinary_injective
  (V1 V2 : Variant) (self1 : fields V1) (self2 : fields V2) :
  (Fulfillment.serializeBinary V1 self1).1 = (Fulfillment.serializeBinary V2 self2).1 ->
  Fulfillment.getTypeBit V1 = Fulfillment.getTypeBit V2
  /\ (Fulfillment.serializePayload V1 self1).1
     = (Fulfillment.serializePayload V2 self2).1.
Proof.
  unfold Fulfillment.getTypeBit. rewrite !serializeBinary_bytes. intros Heq.
  pose proof (VarUIntFacts.varuint_decode_encode (TYPE_BIT V1)
                (Fulfillment.serializePayload V1 self1).1) as H1.
  rewrite Heq, VarUIntFacts.varuint_decode_encode in H1.
  injection H1 as Hbit _. subst. split; [by symmetry|].
  rewrite <- Hbit in Heq. by apply app_inv_head in Heq.
Qed.

Lemma serializeBinary_injective_witness :
  Fulfillment.getTypeBit Preimage = Fulfillment.getTypeBit Preimage
  /\ (Fulfillment.serializePayload Preimage hello).1
     = (Fulfillment.serializePayload Preimage hello).1.
Proof.
  apply (serializeBinary_injective Preimage Preimage hello hello).
  reflexivity.
Defined.


(** ** Parsing out of a stream, and past the payload *)

(** X8. [fromBinary] reads a fulfillment where the Reader it is given
    stands and leaves that Reader behind it: if the unread bytes start with
    [serializeBinary()] of an instance of a registered variant whose
    [parsePayload] reads its payload out of a stream, the call succeeds with
    an instance that serializes to the same bytes, keeps the buffer and
    leaves unread exactly the bytes that follow. *)
Theorem fromBinary_stream
  (registry : gmap N Variant) (V : Variant) (self : fields V)
  (reader : Reader.t) (tail : list byte) :
  registered registry V ->
  parses_payload_in_stream V ->
  Reader.rest reader = (Fulfillment.serializeBinary V self).1 ++ tail ->
  exists (self' : fields V) (reader' : Reader.t),
    Fulfillment.fromBinary registry (Reader.OfReader reader)
    = Ok (Fulfillment.mk V self', reader')
    /\ (Fulfillment.serializeBinary V self').1 = (Fulfillment.serializeBinary V self).1
    /\ Reader.buffer reader' = Reader.buffer reader
    /\ Reader.rest reader' = tail.
Proof.
  intros Hreg Hparse Hrest.
  rewrite serializeBinary_bytes, <- app_assoc in Hrest.
  unfold Fulfillment.fromBinary. cbn [Reader.from].
  rewrite (Reader_readVarUInt_encode reader _ _ Hrest). cbn [mbind result_bind].
  unfold BitmaskRegistry.getClassFromTypeBit. rewrite Hreg.
  cbn [mbind result_bind].
  destruct (Hparse self _ tail (Reader_rest_advance reader _ _ Hrest))
    as (self' & reader' & Hp & Hbytes & Hbuf & Htail).
  rewrite Hp. cbn [mbind result_bind].
  exists self', reader'. split; [reflexivity|]. split; [|by split].
  by rewrite !serializeBinary_bytes, Hbytes.
Qed.

Lemma fromBinary_stream_witness :
  exists (self' : fields Preimage) (reader' : Reader.t),
    Fulfillment.fromBinary sample_registry
      (Reader.OfReader (Reader.mk [xff; x01; x05; x68; x65; x6c; x6c; x6f; x02] 1))
    = Ok (Fulfillment.mk Preimage self', reader')
    /\ (Fulfillment.serializeBinary Preimage self').1
       = (Fulfillment.serializeBinary Preimage hello).1
    /\ Reader.buffer reader' = [xff; x01; x05; x68; x65; x6c; x6c; x6f; x02]
    /\ Reader.rest reader' = [x02].
Proof.
  apply (fromBinary_stream sample_registry Preimage hello
           (Reader.mk [xff; x01; x05; x68; x65; x6c; x6c; x6f; x02] 1) [x02]).
  - exact sample_registered_Preimage.
  - exact Preimage_parses_payload_in_stream.
  - reflexivity.
Defined.

(** X9. [fromUri] does not ask that [parsePayload] consume the whole
    payload: for a registered variant that reads its payload out of a
    stream, with a type bit from 1 to 0xfff, the URI whose payload piece
    encodes the payload of an instance followed by any other bytes is
    accepted, and gives an instance with that payload. *)
Theorem fromUri_ignores_trailing_bytes
  (registry : gmap N Variant) (V : Variant) (self : fields V) (tail : list byte) :
  registered registry V ->
  parses_payload_in_stream V ->
  1 <= TYPE_BIT V <= 4095 ->
  (Fulfillment.serializePayload V self).1 ++ tail <> [] ->
  exists self' : fields V,
    Fulfillment.fromUri registry
      ("cf:1:" ++ toString16 (TYPE_BIT V) ++ ":"
       ++ base64url.encode ((Fulfillment.serializePayload V self).1 ++ tail))%string
    = Ok (Fulfillment.mk V self')
    /\ (Fulfillment.serializePayload V self').1 = (Fulfillment.serializePayload V self).1.
Proof.
  intros Hreg Hparse Hbit Hne.
  set (payload := (Fulfillment.serializePayload V self).1 ++ tail) in *.
  assert (Hp : is_payloadBase64Url (base64url.encode payload) = true).
  { unfold is_payloadBase64Url. rewrite Base64Facts.encode_chars.
    destruct (base64url.encode payload) eqn:E; [|done].
    by apply Base64Facts.encode_empty in E. }
  rewrite (fromUri_inside_grammar registry _ _ (TYPE_BIT V)
             (HexFacts.toString16_typeBitHex _ Hbit) Hp
             (HexFacts.parseInt16_toString16 _)).
  unfold BitmaskRegistry.getClassFromTypeBit. rewrite Hreg.
  cbn [mbind result_bind]. rewrite Base64Facts.base64url_decode_encode.
  destruct (Hparse self (Reader.mk payload 0) tail eq_refl)
    as (self' & reader' & Hparsed & Hbytes & _).
  rewrite Hparsed. cbn [mbind result_bind]. by exists self'.
Qed.

Lemma fromUri_ignores_trailing_bytes_witness :
  exists self' : fields Preimage,
    Fulfillment.fromUri sample_registry "cf:1:1:BWhlbGxv_wA"
    = Ok (Fulfillment.mk Preimage self')
    /\ (Fulfillment.serializePayload Preimage self').1
       = (Fulfillment.serializePayload Preimage hello).1.
Proof.
  apply (fromUri_ignores_trailing_bytes sample_registry Preimage hello [xff; x00]).
  - exact sample_registered_Preimage.
  - exact Preimage_parses_payload_in_stream.
  - cbn. lia.
  - discriminate.
Defined.

(** X10. Reserializing what [fromUri] parsed gives back the scheme, the
    version and the type-bit piece of the string it parsed, in a registry
    that holds every class at its own type bit. *)
Theorem fromUri_keeps_head
  (registry : gmap N Variant) (s : string) (f : Fulfillment.t) :
  keyed_by_type_bit registry ->
  Fulfillment.fromUri registry s = Ok f ->
  take 3 (split ":"
            (Fulfillment.serializeUri (Fulfillment.variant f) (Fulfillment.this f)).1)
  = take 3 (split ":" s).
Proof.
  intros Hkeyed Hok.
  destruct (fromUri_Ok_grammar registry s f Hok) as (t & p & -> & Ht & Hp).
  destruct (typeBitHex_value t Ht) as (bit & Hbit & _ & <-).
  rewrite (fromUri_inside_grammar registry _ p bit Ht Hp Hbit) in Hok.
  unfold BitmaskRegistry.getClassFromTypeBit in Hok.
  destruct (registry !! bit) as [V|] eqn:Hreg; [|done].
  cbn [mbind result_bind] in Hok.
  destruct (parsePayload V _ (construct V)) as [[x r']|e]; [|done].
  cbn [mbind result_bind] in Hok. injection Hok as <-.
  rewrite serializeUri_split, split_grammar by done. cbn [take Fulfillment.variant].
  by rewrite (Hkeyed _ _ Hreg).
Qed.

Lemma fromUri_keeps_head_witness :
  take 3 (split ":" (Fulfillment.serializeUri Preimage hello).1)
  = take 3 (split ":" "cf:1:1:BWhlbGxv_wA").
Proof.
  apply (fromUri_keeps_head sample_registry "cf:1:1:BWhlbGxv_wA"
           (Fulfillment.mk Preimage hello)).
  - exact sample_keyed_by_type_bit.
  - reflexivity.
Defined.

(** ** Condition derivation: failure and side effects *)






